(** * types-not-docs: extraction, collision resolution and markdown rendering

    A shallow embedding of the parser ([parser.ts]), the markdown generator
    ([generator.ts]) and the command-line driver ([cli.ts]), together with the
    properties of the documentation pipeline that the specification states.

    Conventions of the embedding.
    - A JavaScript string is a [string]: one [ascii] per code unit, so the
      strings of the embedding are those of code units below 256.  The
      built-ins that classify characters ([trim], [\s], [toLowerCase]) are
      modelled on these code units.  The check mark of the tables, which
      is above this range, is written as its three UTF-8 bytes.
    - The ts-morph syntax tree (the typed AST provider) is a record per node
      kind, holding what the parser reads through the node's getters; a type
      rendered by [getType().getText(node)] is the node's [..._typeText].
    - [undefined] is [None]; an optional field is an [option].
    - [path.basename] follows the operating system of the host, so the
      generator takes the host's path convention as an argument.
    - The calls of the driver into its host, [glob], the project's loader
      and [fs.writeFileSync], are arguments of [run]; each returns or
      throws.
    - A [Set<string>] is a [gset string], a [Map<string, string>] a
      [gmap string string]; arrays are lists and [push] appends. *)

From Stdlib Require Import Ascii String List Bool Arith Lia.
From stdpp Require Import base option list gmap strings pretty.

Local Open Scope string_scope.
Local Open Scope list_scope.

#[local] Set Warnings "-clear-no-such-hyp".

(** ** JavaScript string built-ins *)

Module JsString.

(** White space as [String.prototype.trim] and the regular-expression
    class [\s] see it, among the code units below 256: TAB, LF, VT, FF,
    CR, SPACE and NO-BREAK SPACE. *)
Definition isWhiteSpace (c : ascii) : bool :=
  let n := nat_of_ascii c in
  (((9 <=? n) && (n <=? 13)) || (n =? 32) || (n =? 160))%nat.

Fixpoint trimStart (s : string) : string :=
  match s with
  | EmptyString => EmptyString
  | String c s' => if isWhiteSpace c then trimStart s' else s
  end.

Definition trimEnd (s : string) : string :=
  String.rev (trimStart (String.rev s)).

Definition trim (s : string) : string := trimEnd (trimStart s).

(** A string is truthy when it is not empty. *)
Definition truthy (s : string) : bool :=
  match s with EmptyString => false | String _ _ => true end.

(** [o || EmptyString]: the value when it is truthy, the empty string
    otherwise. *)
Definition orEmpty (o : option string) : string :=
  match o with
  | Some s => if truthy s then s else EmptyString
  | None => EmptyString
  end.

(** [s.includes(".")], for a one-character needle. *)
Fixpoint includesChar (c : ascii) (s : string) : bool :=
  match s with
  | EmptyString => false
  | String d s' => if Ascii.eqb c d then true else includesChar c s'
  end.

(** Among the code units below 256 the letters with a lower-case form are
    A to Z and U+00C0 to U+00DE without the multiplication sign U+00D7;
    the lower-case form is 32 further. *)
Definition toLowerCaseChar (c : ascii) : ascii :=
  let n := nat_of_ascii c in
  if (((65 <=? n) && (n <=? 90))
      || ((192 <=? n) && (n <=? 222) && negb (n =? 215)))%nat
  then ascii_of_nat (n + 32) else c.

Fixpoint toLowerCase (s : string) : string :=
  match s with
  | EmptyString => EmptyString
  | String c s' => String (toLowerCaseChar c) (toLowerCase s')
  end.

(** [parts.join(sep)] *)
Fixpoint join (sep : string) (parts : list string) : string :=
  match parts with
  | [] => EmptyString
  | [p] => p
  | p :: rest => p +:+ sep +:+ join sep rest
  end.

(** [s.replace(/^-\s*/, EmptyString)]: a leading dash and the white space that
    follows it are removed; a string that does not start with a dash is
    returned as it is. *)
Definition replaceLeadingDash (s : string) : string :=
  match s with
  | String "-" s' => trimStart s'
  | _ => s
  end.

(** [s.replace(/\|/g, "\\|")] *)
Fixpoint replacePipes (s : string) : string :=
  match s with
  | EmptyString => EmptyString
  | String "|" s' => String "\" (String "|" (replacePipes s'))
  | String c s' => String c (replacePipes s')
  end.

(** The class [[a-z0-9]]. *)
Definition isLowerAlnum (c : ascii) : bool :=
  let n := nat_of_ascii c in
  (((97 <=? n) && (n <=? 122)) || ((48 <=? n) && (n <=? 57)))%nat.

(** [s.replace(/[^a-z0-9]+/g, "-")].  The scan goes left to right; at a
    character outside the class the greedy [+] consumes the whole run and
    one hyphen is written for it ([skipRun] is the scan inside a run). *)
Fixpoint replaceNonAlnumRuns (s : string) : string :=
  match s with
  | EmptyString => EmptyString
  | String c s' =>
      if isLowerAlnum c then String c (replaceNonAlnumRuns s')
      else String "-" (skipRun s')
  end
with skipRun (s : string) : string :=
  match s with
  | EmptyString => EmptyString
  | String c s' =>
      if isLowerAlnum c then String c (replaceNonAlnumRuns s')
      else skipRun s'
  end.

End JsString.

Import JsString.

(** ** The documentation model ([types.ts]) *)

Record ParsedProperty := {
  prop_name : string;
  prop_type : string;
  prop_required : bool;
  prop_description : option string
}.

Record ParsedInterface := {
  iface_name : string;
  iface_description : option string;
  iface_properties : list ParsedProperty;
  iface_extends : option (list string)
}.

Record ParsedTypeAlias := {
  alias_name : string;
  alias_type : string;
  alias_description : option string
}.

Record ParsedParameter := {
  param_name : string;
  param_type : string;
  param_required : bool;
  param_description : option string
}.

Record ParsedFunction := {
  fn_name : string;
  fn_description : option string;
  fn_parameters : list ParsedParameter;
  fn_returnType : string;
  fn_isAsync : bool
}.

Record ParsedFile := {
  filePath : string;
  interfaces : list ParsedInterface;
  typeAliases : list ParsedTypeAlias;
  functions : list ParsedFunction
}.

(** ** The syntax tree read by the parser (ts-morph nodes) *)

(** A JSDoc tag: [getTagName()], whether [Node.isJSDocParameterTag] holds,
    and, for a parameter tag, [getName()] and [getCommentText()]. *)
Record JSDocTag := {
  tag_getTagName : string;
  tag_isJSDocParameterTag : bool;
  tag_getName : string;
  tag_getCommentText : option string
}.

(** A documentation block: [getDescription?.()] and [getTags()]. *)
Record JSDoc := {
  doc_getDescription : option string;
  doc_getTags : list JSDocTag
}.

Record ParameterDeclaration := {
  pd_getName : string;
  pd_typeText : string;
  pd_isOptional : bool;
  pd_hasInitializer : bool
}.

Record PropertySignature := {
  ps_getName : string;
  ps_typeText : string;
  ps_hasQuestionToken : bool;
  ps_getJsDocs : list JSDoc
}.

Record MethodSignature := {
  ms_getName : string;
  ms_getParameters : list ParameterDeclaration;
  ms_returnTypeText : string;
  ms_hasQuestionToken : bool;
  ms_getJsDocs : list JSDoc
}.

Record InterfaceDeclaration := {
  id_isExported : bool;
  id_getName : string;
  id_getJsDocs : list JSDoc;
  id_getProperties : list PropertySignature;
  id_getMethods : list MethodSignature;
  (** the text of each clause of [getExtends()] *)
  id_getExtends : list string
}.

Record TypeAliasDeclaration := {
  ta_isExported : bool;
  ta_getName : string;
  ta_typeText : string;
  ta_getJsDocs : list JSDoc
}.

Record FunctionDeclaration := {
  fd_isExported : bool;
  (** [getName()] is [undefined] for [export default function () {}] *)
  fd_getName : option string;
  fd_getJsDocs : list JSDoc;
  fd_getParameters : list ParameterDeclaration;
  fd_returnTypeText : string;
  fd_isAsync : bool
}.

(** What the parser reads of an arrow function, and equally what a function
    expression carries. *)
Record FunctionLike := {
  fl_getParameters : list ParameterDeclaration;
  fl_returnTypeText : string;
  fl_isAsync : bool
}.

(** The initializer of a variable declaration, by the node kind that
    [Node.isArrowFunction] tests. *)
Inductive Initializer :=
| ArrowFunction (arrowFn : FunctionLike)
| FunctionExpression (fnExpr : FunctionLike)
| OtherExpression.

Record VariableDeclaration := {
  vd_getName : string;
  vd_getInitializer : option Initializer
}.

Record VariableStatement := {
  vs_isExported : bool;
  vs_getJsDocs : list JSDoc;
  vs_getDeclarations : list VariableDeclaration
}.

(** The top-level statements of a source file, in source order. *)
Inductive Statement :=
| InterfaceStatement (iface : InterfaceDeclaration)
| TypeAliasStatement (alias : TypeAliasDeclaration)
| FunctionStatement (fn : FunctionDeclaration)
| VariableStatementNode (varStatement : VariableStatement)
| OtherStatement.

Definition SourceFile := list Statement.

(** [sourceFile.getInterfaces()], [getTypeAliases()], [getFunctions()]: the
    direct children of each kind, in source order. *)
Definition getInterfaces (sourceFile : SourceFile) : list InterfaceDeclaration :=
  omap (fun st => match st with InterfaceStatement i => Some i | _ => None end)
       sourceFile.

Definition getTypeAliases (sourceFile : SourceFile) : list TypeAliasDeclaration :=
  omap (fun st => match st with TypeAliasStatement a => Some a | _ => None end)
       sourceFile.

Definition getFunctions (sourceFile : SourceFile) : list FunctionDeclaration :=
  omap (fun st => match st with FunctionStatement f => Some f | _ => None end)
       sourceFile.

(** [sourceFile.getVariableDeclarations()]: the declarations of every
    top-level variable statement, in source order; each is paired with what
    [varDecl.getVariableStatement()] returns for it. *)
Definition getVariableDeclarations (sourceFile : SourceFile)
  : list (VariableStatement * VariableDeclaration) :=
  flat_map (fun st =>
              match st with
              | VariableStatementNode vs =>
                  map (fun vd => (vs, vd)) (vs_getDeclarations vs)
              | _ => []
              end) sourceFile.

(** A call either returns or throws an [Error] with a message. *)
Inductive Completion (A : Type) :=
| Return (value : A)
| Throw (message : string).
Arguments Return {A} value.
Arguments Throw {A} message.

(** ** The parser ([parser.ts]) *)

Module Parser.

(** *** Comment resolver *)

Definition getJsDocDescriptionFromDocs (jsDocs : option (list JSDoc))
  : option string :=
  match jsDocs with
  | None => None
  | Some docs =>
      match last docs with
      | None => None
      | Some jsDoc =>
          match doc_getDescription jsDoc with
          | None => None
          | Some description =>
              if negb (truthy description)
                 || String.eqb (trim description) EmptyString
              then None
              else Some (trim description)
          end
      end
  end.

(** Every node kind the parser passes here has [getJsDocs]. *)
Definition getJsDocDescription (nodeJsDocs : list JSDoc) : option string :=
  getJsDocDescriptionFromDocs (Some nodeJsDocs).

(** The body of the loop over the tags of the last block. *)
Definition recordParamTag (descriptions : gmap string string) (tag : JSDocTag)
  : gmap string string :=
  if String.eqb (tag_getTagName tag) "param" && tag_isJSDocParameterTag tag
  then
    let paramName := tag_getName tag in
    let comment := trim <$> tag_getCommentText tag in
    match comment with
    | Some text =>
        if truthy paramName && negb (includesChar "." paramName)
           && truthy text
        then <[paramName := replaceLeadingDash text]> descriptions
        else descriptions
    | None => descriptions
    end
  else descriptions.

Definition extractParamDescriptions (jsDocs : list JSDoc)
  : gmap string string :=
  match last jsDocs with
  | None => ∅
  | Some jsDoc => foldl recordParamTag ∅ (doc_getTags jsDoc)
  end.

(** *** Interfaces *)

Definition parseProperties (iface : InterfaceDeclaration)
  : list ParsedProperty :=
  map (fun prop =>
         {| prop_name := ps_getName prop;
            prop_type := ps_typeText prop;
            prop_required := negb (ps_hasQuestionToken prop);
            prop_description := getJsDocDescription (ps_getJsDocs prop) |})
      (id_getProperties iface)
  ++
  map (fun method =>
         let params :=
           join ", " (map (fun p => pd_getName p +:+ ": " +:+ pd_typeText p)
                          (ms_getParameters method)) in
         let returnType := ms_returnTypeText method in
         let funcType := "(" +:+ params +:+ ") => " +:+ returnType in
         {| prop_name := ms_getName method;
            prop_type := funcType;
            prop_required := negb (ms_hasQuestionToken method);
            prop_description := getJsDocDescription (ms_getJsDocs method) |})
      (id_getMethods iface).

Definition getExtendsClause (iface : InterfaceDeclaration)
  : option (list string) :=
  match id_getExtends iface with
  | [] => None
  | extendsClauses => Some extendsClauses
  end.

(** The record that the [map] callback of [parseInterfaces] builds. *)
Definition interfaceRecord (iface : InterfaceDeclaration) : ParsedInterface :=
  {| iface_name := id_getName iface;
     iface_description := getJsDocDescription (id_getJsDocs iface);
     iface_properties := parseProperties iface;
     iface_extends := getExtendsClause iface |}.

Definition parseInterfaces (sourceFile : SourceFile) : list ParsedInterface :=
  map interfaceRecord
      (filter (fun iface => id_isExported iface = true)
              (getInterfaces sourceFile)).

(** *** Type aliases *)

(** The record that the [map] callback of [parseTypeAliases] builds. *)
Definition typeAliasRecord (alias : TypeAliasDeclaration) : ParsedTypeAlias :=
  {| alias_name := ta_getName alias;
     alias_type := ta_typeText alias;
     alias_description := getJsDocDescription (ta_getJsDocs alias) |}.

Definition parseTypeAliases (sourceFile : SourceFile) : list ParsedTypeAlias :=
  map typeAliasRecord
      (filter (fun alias => ta_isExported alias = true)
              (getTypeAliases sourceFile)).

(** *** Functions *)

Definition parseParameters (params : list ParameterDeclaration)
           (paramDescriptions : gmap string string) : list ParsedParameter :=
  map (fun param =>
         {| param_name := pd_getName param;
            param_type := pd_typeText param;
            param_required :=
              negb (pd_isOptional param) && negb (pd_hasInitializer param);
            param_description := paramDescriptions !! pd_getName param |})
      params.

Definition parseFunctionDeclaration (fn : FunctionDeclaration)
  : ParsedFunction :=
  let jsDocs := fd_getJsDocs fn in
  let paramDescriptions := extractParamDescriptions jsDocs in
  {| fn_name := match fd_getName fn with
                | Some name => if truthy name then name else "anonymous"
                | None => "anonymous"
                end;
     fn_description := getJsDocDescription (fd_getJsDocs fn);
     fn_parameters := parseParameters (fd_getParameters fn) paramDescriptions;
     fn_returnType := fd_returnTypeText fn;
     fn_isAsync := fd_isAsync fn |}.

(** The documentation blocks are those of the variable statement. *)
Definition parseArrowFunction (varStatement : VariableStatement)
           (varDecl : VariableDeclaration) (arrowFn : FunctionLike)
  : ParsedFunction :=
  let jsDocs := vs_getJsDocs varStatement in
  let paramDescriptions := extractParamDescriptions jsDocs in
  {| fn_name := vd_getName varDecl;
     fn_description := getJsDocDescriptionFromDocs (Some jsDocs);
     fn_parameters := parseParameters (fl_getParameters arrowFn) paramDescriptions;
     fn_returnType := fl_returnTypeText arrowFn;
     fn_isAsync := fl_isAsync arrowFn |}.

(** The first loop of [parseFunctions]: exported function declarations. *)
Definition pushFunctionDeclarations (sourceFile : SourceFile)
           (functions : list ParsedFunction) : list ParsedFunction :=
  foldl (fun functions fn =>
           if fd_isExported fn
           then functions ++ [parseFunctionDeclaration fn]
           else functions)
        functions (getFunctions sourceFile).

(** The second loop: exported variable declarations whose initializer is
    an arrow function. *)
Definition pushArrowFunctions (sourceFile : SourceFile)
           (functions : list ParsedFunction) : list ParsedFunction :=
  foldl (fun functions '(varStatement, varDecl) =>
           if vs_isExported varStatement
           then match vd_getInitializer varDecl with
                | Some (ArrowFunction init) =>
                    functions ++ [parseArrowFunction varStatement varDecl init]
                | _ => functions
                end
           else functions)
        functions (getVariableDeclarations sourceFile).

Definition parseFunctions (sourceFile : SourceFile) : list ParsedFunction :=
  pushArrowFunctions sourceFile (pushFunctionDeclarations sourceFile []).

(** *** A whole file *)

(** [parseFile] once the project has produced the file's syntax tree. *)
Definition parseSourceFile (path : string) (sourceFile : SourceFile)
  : ParsedFile :=
  {| filePath := path;
     interfaces := parseInterfaces sourceFile;
     typeAliases := parseTypeAliases sourceFile;
     functions := parseFunctions sourceFile |}.

(** [parseFile(filePath)].  [addSourceFileAtPath] is the project's loader:
    it returns the syntax tree of the file or throws. *)
Definition parseFile (addSourceFileAtPath : string -> Completion SourceFile)
           (path : string) : Completion ParsedFile :=
  match addSourceFileAtPath path with
  | Return sourceFile => Return (parseSourceFile path sourceFile)
  | Throw message => Throw message
  end.

End Parser.

(** ** [path.basename] of the host's [path] module *)

(** Node's [path] module follows the operating system the process runs on:
    [path.posix] or [path.win32]. *)
Inductive Platform := Posix | Win32.

Module Path.

Fixpoint dropSeparators (isSep : ascii -> bool) (s : string) : string :=
  match s with
  | EmptyString => EmptyString
  | String c s' => if isSep c then dropSeparators isSep s' else s
  end.

Fixpoint takeComponent (isSep : ascii -> bool) (s : string) : string :=
  match s with
  | EmptyString => EmptyString
  | String c s' =>
      if isSep c then EmptyString else String c (takeComponent isSep s')
  end.

(** The backward scan of [basename]: trailing separators are skipped, then
    characters are taken up to the next separator. *)
Definition lastComponent (isSep : ascii -> bool) (path : string) : string :=
  String.rev (takeComponent isSep (dropSeparators isSep (String.rev path))).

Definition isPosixPathSeparator (c : ascii) : bool := Ascii.eqb c "/".

Definition isPathSeparator (c : ascii) : bool :=
  Ascii.eqb c "/" || Ascii.eqb c "\".

Definition isWindowsDeviceRoot (c : ascii) : bool :=
  let n := nat_of_ascii c in
  (((65 <=? n) && (n <=? 90)) || ((97 <=? n) && (n <=? 122)))%nat.

(** On Windows the scan stops before a drive-letter prefix. *)
Definition afterDrive (path : string) : string :=
  match path with
  | String c (String ":" rest) =>
      if isWindowsDeviceRoot c then rest else path
  | _ => path
  end.

Definition basename (host : Platform) (path : string) : string :=
  match host with
  | Posix => lastComponent isPosixPathSeparator path
  | Win32 => lastComponent isPathSeparator (afterDrive path)
  end.

End Path.

(** ** The markdown generator ([generator.ts]) *)

Record GeneratorOptions := { title : option string }.

Record ItemWithSource (T : Type) := {
  item : T;
  sourceFile : string
}.
Arguments item {T} _.
Arguments sourceFile {T} _.

Definition newline : string := String "010"%char EmptyString.

Module Generator.

(** *** Collision resolver *)

(** One iteration of the loop of [findDuplicateNames] on the pair
    [(seen, duplicates)]. *)
Definition noteName (st : gset string * gset string) (name : string)
  : gset string * gset string :=
  let '(seen, duplicates) := st in
  let duplicates :=
    if bool_decide (name ∈ seen) then {[name]} ∪ duplicates else duplicates in
  ({[name]} ∪ seen, duplicates).

Definition findDuplicateNames (names : list string) : gset string :=
  snd (foldl noteName (∅, ∅) names).

Definition toAnchor (name : string) : string :=
  replaceNonAlnumRuns (toLowerCase name).

Definition getDisplayName (name sourceFile : string) (duplicates : gset string)
  : string :=
  if bool_decide (name ∈ duplicates)
  then name +:+ " (" +:+ sourceFile +:+ ")"
  else name.

Definition getAnchor (name sourceFile : string) (duplicates : gset string)
  : string :=
  if bool_decide (name ∈ duplicates)
  then let combined := name +:+ "-" +:+ sourceFile in toAnchor combined
  else toAnchor name.

(** *** Tables *)

Definition escapeMarkdown (text : string) : string := replacePipes text.

Definition tableRow (name type : string) (required : bool)
           (description : option string) : string :=
  let required := if required then "✓" else EmptyString in
  let description := orEmpty description in
  let type := escapeMarkdown type in
  "| " +:+ name +:+ " | `" +:+ type +:+ "` | " +:+ required +:+ " | "
       +:+ description +:+ " |".

Definition generatePropertiesTable (properties : list ParsedProperty)
  : list string :=
  foldl (fun lines prop =>
           lines ++ [tableRow (prop_name prop) (prop_type prop)
                              (prop_required prop) (prop_description prop)])
        ["| Property | Type | Required | Description |";
         "|----------|------|----------|-------------|"]
        properties.

Definition generateParametersTable (parameters : list ParsedParameter)
  : list string :=
  foldl (fun lines param =>
           lines ++ [tableRow (param_name param) (param_type param)
                              (param_required param) (param_description param)])
        ["| Name | Type | Required | Description |";
         "|------|------|----------|-------------|"]
        parameters.

(** *** Sections *)

(** [if (description) { lines.push(description); lines.push(blank) }] *)
Definition pushDescription (lines : list string) (description : option string)
  : list string :=
  match description with
  | Some text => if truthy text then lines ++ [text; EmptyString] else lines
  | None => lines
  end.

Definition generateInterface (iface : ParsedInterface) (sourceFile : string)
           (duplicates : gset string) : list string :=
  let displayName := getDisplayName (iface_name iface) sourceFile duplicates in
  let lines := ["## " +:+ displayName; EmptyString] in
  let lines :=
    match iface_extends iface with
    | Some ((_ :: _) as extends) =>
        lines ++ ["*Extends: " +:+ join ", " extends +:+ "*"; EmptyString]
    | _ => lines
    end in
  let lines := pushDescription lines (iface_description iface) in
  let lines :=
    match iface_properties iface with
    | _ :: _ => lines ++ generatePropertiesTable (iface_properties iface)
    | [] => lines ++ ["*No properties*"]
    end in
  lines ++ [EmptyString; "---"].

Definition generateTypeAlias (alias : ParsedTypeAlias) (sourceFile : string)
           (duplicates : gset string) : list string :=
  let displayName := getDisplayName (alias_name alias) sourceFile duplicates in
  let lines := ["## " +:+ displayName; EmptyString] in
  let lines := pushDescription lines (alias_description alias) in
  lines ++ ["```typescript";
            "type " +:+ alias_name alias +:+ " = " +:+ alias_type alias;
            "```";
            EmptyString;
            "---"].

Definition generateFunction (fn : ParsedFunction) (sourceFile : string)
           (duplicates : gset string) : list string :=
  let displayName := getDisplayName (fn_name fn) sourceFile duplicates in
  let asyncPrefix := if fn_isAsync fn then "async " else EmptyString in
  let lines := ["## " +:+ displayName +:+ "()"; EmptyString] in
  let lines := pushDescription lines (fn_description fn) in
  let params :=
    map (fun p =>
           let opt := if param_required p then EmptyString else "?" in
           param_name p +:+ opt +:+ ": " +:+ param_type p)
        (fn_parameters fn) in
  let signature :=
    asyncPrefix +:+ "function " +:+ fn_name fn +:+ "(" +:+ join ", " params
                +:+ "): " +:+ fn_returnType fn in
  let lines := lines ++ ["```typescript"; signature; "```"; EmptyString] in
  let lines :=
    match fn_parameters fn with
    | _ :: _ =>
        lines ++ ["**Parameters:**"; EmptyString]
              ++ generateParametersTable (fn_parameters fn) ++ [EmptyString]
    | [] => lines
    end in
  let lines :=
    lines ++ ["**Returns:** `" +:+ escapeMarkdown (fn_returnType fn) +:+ "`"] in
  lines ++ [EmptyString; "---"].

(** *** The document *)

Definition withSource {T : Type} (sourceFile : string)
           (all : list (ItemWithSource T)) (items : list T)
  : list (ItemWithSource T) :=
  foldl (fun all it => all ++ [{| item := it; sourceFile := sourceFile |}])
        all items.

(** The loop over the files that fills [allInterfaces], [allTypeAliases]
    and [allFunctions]. *)
Definition collectItems (host : Platform) (files : list ParsedFile)
  : list (ItemWithSource ParsedInterface)
    * list (ItemWithSource ParsedTypeAlias)
    * list (ItemWithSource ParsedFunction) :=
  foldl (fun '(allInterfaces, allTypeAliases, allFunctions) file =>
           let sourceFile := Path.basename host (filePath file) in
           (withSource sourceFile allInterfaces (interfaces file),
            withSource sourceFile allTypeAliases (typeAliases file),
            withSource sourceFile allFunctions (functions file)))
        ([], [], []) files.

(** A table-of-contents entry of an interface or a type alias. *)
Definition tocEntry (name sourceFile : string) (duplicateNames : gset string)
  : string :=
  let displayName := getDisplayName name sourceFile duplicateNames in
  let anchor := getAnchor name sourceFile duplicateNames in
  "- [" +:+ displayName +:+ "](#" +:+ anchor +:+ ")".

(** A table-of-contents entry of a function. *)
Definition tocFunctionEntry (name sourceFile : string)
           (duplicateNames : gset string) : string :=
  let displayName := getDisplayName name sourceFile duplicateNames in
  let anchor := getAnchor name sourceFile duplicateNames in
  "- [" +:+ displayName +:+ "()](#" +:+ anchor +:+ ")".

Definition pooledNames
           (allInterfaces : list (ItemWithSource ParsedInterface))
           (allTypeAliases : list (ItemWithSource ParsedTypeAlias))
           (allFunctions : list (ItemWithSource ParsedFunction))
  : list string :=
  map (fun i => iface_name (item i)) allInterfaces
  ++ map (fun t => alias_name (item t)) allTypeAliases
  ++ map (fun f => fn_name (item f)) allFunctions.

Definition tableOfContents
           (allInterfaces : list (ItemWithSource ParsedInterface))
           (allTypeAliases : list (ItemWithSource ParsedTypeAlias))
           (allFunctions : list (ItemWithSource ParsedFunction))
           (duplicateNames : gset string) (lines : list string)
  : list string :=
  if (0 <? length allInterfaces + length allTypeAliases
           + length allFunctions)%nat
  then
    let lines := lines ++ ["## Table of Contents"; EmptyString] in
    let lines :=
      if (0 <? length allInterfaces)%nat then
        foldl (fun lines i =>
                 lines ++ [tocEntry (iface_name (item i)) (sourceFile i)
                                    duplicateNames])
              (lines ++ ["### Interfaces"; EmptyString]) allInterfaces
        ++ [EmptyString]
      else lines in
    let lines :=
      if (0 <? length allTypeAliases)%nat then
        foldl (fun lines t =>
                 lines ++ [tocEntry (alias_name (item t)) (sourceFile t)
                                    duplicateNames])
              (lines ++ ["### Types"; EmptyString]) allTypeAliases
        ++ [EmptyString]
      else lines in
    let lines :=
      if (0 <? length allFunctions)%nat then
        foldl (fun lines f =>
                 lines ++ [tocFunctionEntry (fn_name (item f)) (sourceFile f)
                                            duplicateNames])
              (lines ++ ["### Functions"; EmptyString]) allFunctions
        ++ [EmptyString]
      else lines in
    lines ++ ["---"; EmptyString]
  else lines.

(** The line list of [generateMarkdown], before the final [join]. *)
Definition generateMarkdownLines (host : Platform) (files : list ParsedFile)
           (options : GeneratorOptions) : list string :=
  let title := default "API Reference" (title options) in
  let '(allInterfaces, allTypeAliases, allFunctions) :=
    collectItems host files in
  let duplicateNames :=
    findDuplicateNames
      (pooledNames allInterfaces allTypeAliases allFunctions) in
  let lines := ["# " +:+ title; EmptyString] in
  let lines :=
    tableOfContents allInterfaces allTypeAliases allFunctions
                    duplicateNames lines in
  let lines :=
    foldl (fun lines i =>
             lines ++ generateInterface (item i) (sourceFile i) duplicateNames
                   ++ [EmptyString])
          lines allInterfaces in
  let lines :=
    foldl (fun lines t =>
             lines ++ generateTypeAlias (item t) (sourceFile t) duplicateNames
                   ++ [EmptyString])
          lines allTypeAliases in
  let lines :=
    foldl (fun lines f =>
             lines ++ generateFunction (item f) (sourceFile f) duplicateNames
                   ++ [EmptyString])
          lines allFunctions in
  lines.

Definition generateMarkdown (host : Platform) (files : list ParsedFile)
           (options : GeneratorOptions) : string :=
  join newline (generateMarkdownLines host files options).

End Generator.

(** ** The command-line driver ([cli.ts]) *)

Record CliOptions := {
  output : option string;
  cli_title : string;
  exclude : list string
}.

(** Where the document went: a file when [output] is given, standard output
    otherwise. *)
Record Emitted := {
  emitted_to : option string;
  emitted_markdown : string
}.

(** The statements of [run] that throw: a rejected search for the files,
    the two [throw new Error] of [run], and a failed write of the output
    file. *)
Inductive RunError :=
| GlobRejected (message : string)
| NoFilesFound (globPattern : string)
| NoExportedTypes
| WriteFailed (message : string).


(** How [run] completes. *)
Inductive Outcome :=
| Failed (error : RunError)
| Succeeded (emitted : Emitted).

Module Cli.

(** The variables the parsing loop of [run] updates; [stderr] collects the
    lines written with [console.error]. *)
Record LoopState := {
  parsedFiles : list ParsedFile;
  totalInterfaces : nat;
  totalTypes : nat;
  totalFunctions : nat;
  stderr : list string
}.

Definition hasExportedTypes (parsed : ParsedFile) : bool :=
  ((0 <? length (interfaces parsed))
   || (0 <? length (typeAliases parsed))
   || (0 <? length (functions parsed)))%nat.

(** The body of [for (const file of files)] with its [try]/[catch]. *)
Definition parseStep (addSourceFileAtPath : string -> Completion SourceFile)
           (st : LoopState) (file : string) : LoopState :=
  match Parser.parseFile addSourceFileAtPath file with
  | Return parsed =>
      if hasExportedTypes parsed then
        {| parsedFiles := parsedFiles st ++ [parsed];
           totalInterfaces := totalInterfaces st + length (interfaces parsed);
           totalTypes := totalTypes st + length (typeAliases parsed);
           totalFunctions := totalFunctions st + length (functions parsed);
           stderr := stderr st |}
      else st
  | Throw message =>
      {| parsedFiles := parsedFiles st;
         totalInterfaces := totalInterfaces st;
         totalTypes := totalTypes st;
         totalFunctions := totalFunctions st;
         stderr := stderr st
                   ++ ["Warning: Failed to parse " +:+ file +:+ ": "
                         +:+ message] |}
  end.

Definition parseAll (addSourceFileAtPath : string -> Completion SourceFile)
           (st : LoopState) (files : list string) : LoopState :=
  foldl (parseStep addSourceFileAtPath) st files.

(** The loop variables before the first file, after
    [console.error] has reported the number of files found. *)
Definition initialState (files : list string) : LoopState :=
  {| parsedFiles := []; totalInterfaces := 0; totalTypes := 0;
     totalFunctions := 0;
     stderr := ["Found " +:+ pretty (length files) +:+ " file(s)"] |}.

(** [run(globPattern, options)].  [glob] is the search for the files, called
    with the pattern and the patterns to ignore; [addSourceFileAtPath] is
    the project's loader; [writeFileSync] writes the document to the output
    file.  Each of them returns or throws.  The result is what was written
    to standard error and how the call completed. *)
Definition run (glob : string -> list string -> Completion (list string))
           (addSourceFileAtPath : string -> Completion SourceFile)
           (writeFileSync : string -> string -> Completion unit)
           (host : Platform) (globPattern : string)
           (options : CliOptions) : list string * Outcome :=
  match glob globPattern (exclude options) with
  | Throw message => ([], Failed (GlobRejected message))
  | Return [] => ([], Failed (NoFilesFound globPattern))
  | Return ((_ :: _) as files) =>
      let st := parseAll addSourceFileAtPath (initialState files) files in
      match parsedFiles st with
      | [] => (stderr st, Failed NoExportedTypes)
      | _ :: _ =>
          let log :=
            stderr st
            ++ ["Parsed " +:+ pretty (length (parsedFiles st))
                  +:+ " file(s): " +:+ pretty (totalInterfaces st)
                  +:+ " interfaces, " +:+ pretty (totalTypes st)
                  +:+ " types, " +:+ pretty (totalFunctions st)
                  +:+ " functions"] in
          let markdown :=
            Generator.generateMarkdown host (parsedFiles st)
                                       {| title := Some (cli_title options) |} in
          match output options with
          | Some file =>
              if truthy file
              then match writeFileSync file markdown with
                   | Return _ =>
                       (log ++ ["Wrote documentation to " +:+ file],
                        Succeeded {| emitted_to := Some file;
                                     emitted_markdown := markdown |})
                   | Throw message => (log, Failed (WriteFailed message))
                   end
              else (log, Succeeded {| emitted_to := None;
                                      emitted_markdown := markdown |})
          | None =>
              (log, Succeeded {| emitted_to := None;
                                 emitted_markdown := markdown |})
          end
      end
  end.

End Cli.

(** ** Declaration order as the specification words it *)

Module SourceOrder.

(** What one top-level statement contributes to each list. *)
Definition interfacesOf (st : Statement) : list ParsedInterface :=
  match st with
  | InterfaceStatement iface =>
      if id_isExported iface then [Parser.interfaceRecord iface] else []
  | _ => []
  end.

Definition typeAliasesOf (st : Statement) : list ParsedTypeAlias :=
  match st with
  | TypeAliasStatement alias =>
      if ta_isExported alias then [Parser.typeAliasRecord alias] else []
  | _ => []
  end.

Definition declaredFunctionsOf (st : Statement) : list ParsedFunction :=
  match st with
  | FunctionStatement fn =>
      if fd_isExported fn then [Parser.parseFunctionDeclaration fn] else []
  | _ => []
  end.

Definition arrowFunctionOf (vs : VariableStatement) (vd : VariableDeclaration)
  : list ParsedFunction :=
  match vd_getInitializer vd with
  | Some (ArrowFunction init) => [Parser.parseArrowFunction vs vd init]
  | _ => []
  end.

Definition arrowFunctionsOf (st : Statement) : list ParsedFunction :=
  match st with
  | VariableStatementNode vs =>
      if vs_isExported vs
      then flat_map (arrowFunctionOf vs) (vs_getDeclarations vs)
      else []
  | _ => []
  end.

(** The functions of a statement, of either shape. *)
Definition functionsOf (st : Statement) : list ParsedFunction :=
  declaredFunctionsOf st ++ arrowFunctionsOf st.

(** The lists in source declaration order: one pass over the statements,
    each contributing its own records where it stands. *)
Definition interfacesInSourceOrder (sourceFile : SourceFile) :=
  flat_map interfacesOf sourceFile.
Definition typeAliasesInSourceOrder (sourceFile : SourceFile) :=
  flat_map typeAliasesOf sourceFile.
Definition functionsInSourceOrder (sourceFile : SourceFile) :=
  flat_map functionsOf sourceFile.

(** The two shapes apart, each in source order. *)
Definition declaredFunctionsInSourceOrder (sourceFile : SourceFile) :=
  flat_map declaredFunctionsOf sourceFile.
Definition arrowFunctionsInSourceOrder (sourceFile : SourceFile) :=
  flat_map arrowFunctionsOf sourceFile.

End SourceOrder.

(** ** The pooled items of a run *)

Module Pooled.

(** The items of one kind of all files, in file order, each with the base
    name of its file: the content of [allInterfaces], [allTypeAliases] and
    [allFunctions] after the collecting loop. *)
Definition itemsOf {T : Type} (proj : ParsedFile -> list T) (host : Platform)
           (files : list ParsedFile) : list (ItemWithSource T) :=
  flat_map (fun file =>
              map (fun it => {| item := it;
                                sourceFile := Path.basename host (filePath file) |})
                  (proj file))
           files.

(** The names handed to [findDuplicateNames]. *)
Definition names (host : Platform) (files : list ParsedFile) : list string :=
  Generator.pooledNames (itemsOf interfaces host files)
                        (itemsOf typeAliases host files)
                        (itemsOf functions host files).

Definition duplicateNames (host : Platform) (files : list ParsedFile)
  : gset string :=
  Generator.findDuplicateNames (names host files).

(** The display name and the anchor of each pooled interface, as the
    table of contents and the headings use them. *)
Definition interfaceLabels (host : Platform) (files : list ParsedFile)
  : list (string * string) :=
  map (fun i =>
         (Generator.getDisplayName (iface_name (item i)) (sourceFile i)
                                   (duplicateNames host files),
          Generator.getAnchor (iface_name (item i)) (sourceFile i)
                              (duplicateNames host files)))
      (itemsOf interfaces host files).

(** A subsection of the table of contents: nothing when it has no entry. *)
Definition tocSection (heading : string) (entries : list string)
  : list string :=
  match entries with
  | [] => []
  | _ :: _ => [heading; EmptyString] ++ entries ++ [EmptyString]
  end.

(** Two pooled lists that hold the same items, whatever their sources. *)
Definition sameItems {T : Type} (l1 l2 : list (ItemWithSource T)) : Prop :=
  Forall2 (fun x y => item x = item y) l1 l2.

(** How often a name occurs in a list of names. *)
Definition occurrences (name : string) (l : list string) : nat :=
  length (filter (fun n => n = name) l).

End Pooled.

(** ** Anchor normalisation as the specification words it *)

Module AnchorSpec.

(** The maximal runs of a string: consecutive characters of the same
    class, tagged with whether the class is [[a-z0-9]]. *)
Fixpoint runs (s : string) : list (bool * string) :=
  match s with
  | EmptyString => []
  | String c s' =>
      match runs s' with
      | (b, r) :: rest =>
          if Bool.eqb b (isLowerAlnum c)
          then (b, String c r) :: rest
          else (isLowerAlnum c, String c EmptyString) :: (b, r) :: rest
      | [] => [(isLowerAlnum c, String c EmptyString)]
      end
  end.

(** A run inside the class is kept, a run outside it becomes one hyphen. *)
Definition renderRun (run : bool * string) : string :=
  if fst run then snd run else "-".

Definition concatStrings (l : list string) : string :=
  foldr String.append EmptyString l.

Definition replaceRuns (s : string) : string :=
  concatStrings (map renderRun (runs s)).

(** Neighbouring runs are of different classes. *)
Fixpoint alternating (l : list (bool * string)) : Prop :=
  match l with
  | (b1, _) :: (((b2, _) :: _) as tl) => b1 <> b2 /\ alternating tl
  | _ => True
  end.

(** A run is not empty and all its characters are of its class. *)
Definition wellFormedRun (run : bool * string) : Prop :=
  snd run <> EmptyString
  /\ Forall (fun c => isLowerAlnum c = fst run) (list_ascii_of_string (snd run)).

(** What follows the leading run outside the class, if there is one. *)
Definition afterLeadingGap (l : list (bool * string)) : list (bool * string) :=
  match l with
  | (false, _) :: rest => rest
  | _ => l
  end.

(** The normalised form of a file base name when it is appended after the
    hyphen of [name-fileBaseName]. *)
Definition normalizedSuffix (sourceFile : string) : string :=
  skipRun (toLowerCase sourceFile).

End AnchorSpec.

(** ** The comment resolver as the specification words it *)

Module CommentSpec.

(** The code units below 256 that ECMAScript counts as white space or as
    line terminators: TAB, LF, VT, FF, CR, SPACE and NO-BREAK SPACE. *)
Definition whiteSpaceCodes : list nat := [9; 10; 11; 12; 13; 32; 160].

Definition isSpace (c : ascii) : bool :=
  bool_decide (nat_of_ascii c ∈ whiteSpaceCodes).

Fixpoint allWhiteSpace (s : string) : bool :=
  match s with
  | EmptyString => true
  | String c s' => isSpace c && allWhiteSpace s'
  end.

Definition startsWithWhiteSpace (s : string) : bool :=
  match s with
  | EmptyString => false
  | String c _ => isSpace c
  end.

Definition endsWithWhiteSpace (s : string) : bool :=
  startsWithWhiteSpace (String.rev s).

(** [t] is [s] without its surrounding white space. *)
Definition trimmedOf (s t : string) : Prop :=
  (exists l r, s = l +:+ t +:+ r
               /\ allWhiteSpace l = true /\ allWhiteSpace r = true)
  /\ startsWithWhiteSpace t = false
  /\ endsWithWhiteSpace t = false.

(** [d] is [t] without a leading dash and the white space that follows
    the dash; a text that does not start with a dash is kept whole. *)
Definition withoutLeadingDash (t d : string) : Prop :=
  (exists ws, t = String "-" (ws +:+ d)
              /\ allWhiteSpace ws = true /\ startsWithWhiteSpace d = false)
  \/ ((forall rest, t <> String "-" rest) /\ d = t).

(** [d] is what is stored for the comment text [text]: the text trimmed,
    then without its leading dash. *)
Definition storedFor (text d : string) : Prop :=
  exists t, trimmedOf text t /\ withoutLeadingDash t d.

(** A tag is recorded with comment text [text]: it is a parameter tag named
    [param], its parameter name is not empty and has no dot, and its
    comment text is not made of white space only. *)
Definition recorded (tag : JSDocTag) (text : string) : Prop :=
  tag_getTagName tag = "param"
  /\ tag_isJSDocParameterTag tag = true
  /\ tag_getName tag <> EmptyString
  /\ includesChar "." (tag_getName tag) = false
  /\ tag_getCommentText tag = Some text
  /\ allWhiteSpace text = false.

(** The entry a tag adds to the mapping, if it adds one. *)
Definition entryOf (tag : JSDocTag) : option (string * string) :=
  if String.eqb (tag_getTagName tag) "param" && tag_isJSDocParameterTag tag
  then
    match tag_getCommentText tag with
    | Some text =>
        if truthy (tag_getName tag)
           && negb (includesChar "." (tag_getName tag))
           && truthy (trim text)
        then Some (tag_getName tag, replaceLeadingDash (trim text))
        else None
    | None => None
    end
  else None.

(** The description a tag adds for the parameter [name]. *)
Definition descriptionFor (name : string) (tag : JSDocTag) : option string :=
  match entryOf tag with
  | Some (n, d) => if decide (n = name) then Some d else None
  | None => None
  end.

(** Stripping exactly the two characters dash and space, as the
    specification words the rule. *)
Definition stripDashSpace (s : string) : string :=
  match s with
  | String "-" (String " " rest) => rest
  | _ => s
  end.

End CommentSpec.

(** ** What each file contributes to a run *)

Module CliSpec.

(** A parsed file that holds no interface, no type alias and no
    function. *)
Definition holdsNothing (parsed : ParsedFile) : Prop :=
  interfaces parsed = [] /\ typeAliases parsed = [] /\ functions parsed = [].

(** A file contributes to a run when it can be parsed and the result holds
    an interface, a type alias or a function. *)
Definition contributes (addSourceFileAtPath : string -> Completion SourceFile)
           (file : string) : Prop :=
  exists parsed,
    Parser.parseFile addSourceFileAtPath file = Return parsed
    /\ ~ holdsNothing parsed.



Definition isNil {A : Type} (l : list A) : bool :=
  match l with
  | [] => true
  | _ :: _ => false
  end.

(** The [ParsedFile] a file adds to the list handed to the renderer: none
    when the file cannot be parsed, and none when it parses to nothing. *)
Definition contribution (addSourceFileAtPath : string -> Completion SourceFile)
           (file : string) : option ParsedFile :=
  match Parser.parseFile addSourceFileAtPath file with
  | Return parsed =>
      if isNil (interfaces parsed) && isNil (typeAliases parsed)
         && isNil (functions parsed)
      then None else Some parsed
  | Throw _ => None
  end.

(** The warning written for a file, if it cannot be parsed. *)
Definition warning (addSourceFileAtPath : string -> Completion SourceFile)
           (file : string) : option string :=
  match Parser.parseFile addSourceFileAtPath file with
  | Return _ => None
  | Throw message =>
      Some ("Warning: Failed to parse " +:+ file +:+ ": " +:+ message)
  end.

(** Where the document goes. *)
Definition target (options : CliOptions) : option string :=
  match output options with
  | Some file => if truthy file then Some file else None
  | None => None
  end.

(** The document cannot be written where the options send it. *)
Definition unwritable (writeFileSync : string -> string -> Completion unit)
           (options : CliOptions) (markdown : string) : Prop :=
  exists file message,
    target options = Some file /\ writeFileSync file markdown = Throw message.


End CliSpec.

(** ** Sample inputs *)

Module Samples.

Definition voidArrow : FunctionLike :=
  {| fl_getParameters := []; fl_returnTypeText := "void"; fl_isAsync := false |}.

(** [export const a = () => {}] *)
Definition exportedArrowA : VariableStatement :=
  {| vs_isExported := true; vs_getJsDocs := [];
     vs_getDeclarations :=
       [{| vd_getName := "a";
           vd_getInitializer := Some (ArrowFunction voidArrow) |}] |}.

(** [export function f() {}] *)
Definition exportedFunctionF : FunctionDeclaration :=
  {| fd_isExported := true; fd_getName := Some "f"; fd_getJsDocs := [];
     fd_getParameters := []; fd_returnTypeText := "void";
     fd_isAsync := false |}.

(** The arrow binding [a] stands before the function declaration [f]. *)
Definition arrowBeforeFunction : SourceFile :=
  [VariableStatementNode exportedArrowA; FunctionStatement exportedFunctionF].

(** [export const g = function () {}] *)
Definition exportedFunctionExpressionG : VariableStatement :=
  {| vs_isExported := true; vs_getJsDocs := [];
     vs_getDeclarations :=
       [{| vd_getName := "g";
           vd_getInitializer := Some (FunctionExpression voidArrow) |}] |}.

Definition functionExpressionBinding : SourceFile :=
  [VariableStatementNode exportedFunctionExpressionG].

(** [export interface Config {}] *)
Definition exportedConfig : SourceFile :=
  [InterfaceStatement
     {| id_isExported := true; id_getName := "Config"; id_getJsDocs := [];
        id_getProperties := []; id_getMethods := []; id_getExtends := [] |}].

(** Two files, each exporting an interface named [Config]. *)
Definition twoConfigFiles : list ParsedFile :=
  [Parser.parseSourceFile "a.ts" exportedConfig;
   Parser.parseSourceFile "b.ts" exportedConfig].

Definition singleConfigFile : list ParsedFile :=
  [Parser.parseSourceFile "a.ts" exportedConfig].

(** Two files of the same base name in different directories. *)
Definition sameBaseNameFiles : list ParsedFile :=
  [Parser.parseSourceFile "src/a.ts" exportedConfig;
   Parser.parseSourceFile "lib/a.ts" exportedConfig].

(** [export function f() {}] alone in [a.ts]. *)
Definition singleFunctionFile : list ParsedFile :=
  [Parser.parseSourceFile "a.ts" [FunctionStatement exportedFunctionF]].

(** Two files whose paths are written with backslashes. *)
Definition backslashPathFiles : list ParsedFile :=
  [Parser.parseSourceFile "x\a.ts" exportedConfig;
   Parser.parseSourceFile "x\b.ts" exportedConfig].

(** A block whose tags read [@param x -y] and [@param z] followed by a
    single space. *)
Definition dashWithoutSpace : JSDoc :=
  {| doc_getDescription := None;
     doc_getTags :=
       [{| tag_getTagName := "param"; tag_isJSDocParameterTag := true;
           tag_getName := "x"; tag_getCommentText := Some "-y" |};
        {| tag_getTagName := "param"; tag_isJSDocParameterTag := true;
           tag_getName := "z"; tag_getCommentText := Some " " |}] |}.

(** A banner block followed by the block of the declaration, whose tags
    read [@param x - count], [@param input.authority - nested] and
    [@param y]. *)
Definition bannerBlock : JSDoc :=
  {| doc_getDescription := Some "File banner.";
     doc_getTags :=
       [{| tag_getTagName := "param"; tag_isJSDocParameterTag := true;
           tag_getName := "w"; tag_getCommentText := Some "unrelated" |}] |}.

Definition declarationBlock : JSDoc :=
  {| doc_getDescription := Some "  Counts things.  ";
     doc_getTags :=
       [{| tag_getTagName := "param"; tag_isJSDocParameterTag := true;
           tag_getName := "x"; tag_getCommentText := Some "- count" |};
        {| tag_getTagName := "param"; tag_isJSDocParameterTag := true;
           tag_getName := "input.authority";
           tag_getCommentText := Some "- nested" |};
        {| tag_getTagName := "param"; tag_isJSDocParameterTag := true;
           tag_getName := "y"; tag_getCommentText := None |}] |}.

(** A project in which [broken.ts] cannot be read, [empty.ts] exports
    nothing and every other path holds [export interface Config {}]. *)
Definition sampleProject (path : string) : Completion SourceFile :=
  if String.eqb path "broken.ts" then Throw "File not found: broken.ts"
  else if String.eqb path "empty.ts" then Return [OtherStatement]
  else Return exportedConfig.

Definition sampleOptions : CliOptions :=
  {| output := None; cli_title := "API Reference"; exclude := [] |}.

(** The same options with the document sent to [out.md]. *)
Definition sampleOptionsToFile : CliOptions :=
  {| output := Some "out.md"; cli_title := "API Reference"; exclude := [] |}.

(** A search that matches the given files, whatever the pattern. *)
Definition matching (files : list string)
  : string -> list string -> Completion (list string) :=
  fun _ _ => Return files.

(** A writer that always succeeds, and one that always fails. *)
Definition writable : string -> string -> Completion unit :=
  fun _ _ => Return tt.

Definition readOnly : string -> string -> Completion unit :=
  fun file _ => Throw ("EACCES: permission denied, open '" +:+ file +:+ "'").

(** [export interface Foo { bar?: string }], without documentation. *)
Definition exportedFoo : SourceFile :=
  [InterfaceStatement
     {| id_isExported := true; id_getName := "Foo"; id_getJsDocs := [];
        id_getProperties :=
          [{| ps_getName := "bar"; ps_typeText := "string";
              ps_hasQuestionToken := true; ps_getJsDocs := [] |}];
        id_getMethods := []; id_getExtends := [] |}].

(** [export const f = async (x: number): Promise<void> => {}], documented
    with [@param x - count]. *)
Definition exportedAsyncArrow : SourceFile :=
  [VariableStatementNode
     {| vs_isExported := true;
        vs_getJsDocs :=
          [{| doc_getDescription := None;
              doc_getTags :=
                [{| tag_getTagName := "param"; tag_isJSDocParameterTag := true;
                    tag_getName := "x";
                    tag_getCommentText := Some "- count" |}] |}];
        vs_getDeclarations :=
          [{| vd_getName := "f";
              vd_getInitializer :=
                Some (ArrowFunction
                        {| fl_getParameters :=
                             [{| pd_getName := "x"; pd_typeText := "number";
                                 pd_isOptional := false;
                                 pd_hasInitializer := false |}];
                           fl_returnTypeText := "Promise<void>";
                           fl_isAsync := true |}) |}] |}].

End Samples.

(** ** Further notions used to state properties of the code *)

Module Notions.



(** Every pipe of the string stands right after a backslash;
    [prevBackslash] tells whether the character before the string is one. *)
Fixpoint pipesEscapedFrom (prevBackslash : bool) (s : string) : bool :=
  match s with
  | EmptyString => true
  | String c s' =>
      (if Ascii.eqb c "|" then prevBackslash else true)
      && pipesEscapedFrom (Ascii.eqb c "\") s'
  end.

Fixpoint countPipes (s : string) : nat :=
  match s with
  | EmptyString => 0
  | String c s' => (if Ascii.eqb c "|" then 1 else 0) + countPipes s'
  end.

(** Reading a backslash followed by a pipe as a pipe, left to right. *)
Fixpoint unescapePipes (s : string) : string :=
  match s with
  | EmptyString => EmptyString
  | String c s' =>
      match s' with
      | String d s'' =>
          if Ascii.eqb c "\" && Ascii.eqb d "|"
          then String "|" (unescapePipes s'')
          else String c (unescapePipes s')
      | EmptyString => String c EmptyString
      end
  end.

(** The characters an anchor is made of: [[a-z0-9]] and the hyphen. *)
Definition isAnchorChar (c : ascii) : bool :=
  isLowerAlnum c || Ascii.eqb c "-".

Fixpoint allAnchorChars (s : string) : bool :=
  match s with
  | EmptyString => true
  | String c s' => isAnchorChar c && allAnchorChars s'
  end.

(** No hyphen of the string stands right after a hyphen; [prevHyphen] tells
    whether the character before the string is one. *)
Fixpoint noDoubleHyphenFrom (prevHyphen : bool) (s : string) : bool :=
  match s with
  | EmptyString => true
  | String c s' =>
      negb (prevHyphen && Ascii.eqb c "-")
      && noDoubleHyphenFrom (Ascii.eqb c "-") s'
  end.

(** How many items of a file, of any kind, bear a name; and how many items
    of a list of files do. *)
Definition itemsNamed (name : string) (file : ParsedFile) : nat :=
  Pooled.occurrences name (map iface_name (interfaces file))
  + Pooled.occurrences name (map alias_name (typeAliases file))
  + Pooled.occurrences name (map fn_name (functions file)).

Definition totalNamed (name : string) (files : list ParsedFile) : nat :=
  sum_list (map (itemsNamed name) files).

(** The pipes of a string that do not stand right after a backslash: the
    ones a markdown table reads as cell borders. *)
Fixpoint unescapedPipesFrom (prevBackslash : bool) (s : string) : nat :=
  match s with
  | EmptyString => 0
  | String c s' =>
      (if Ascii.eqb c "|" && negb prevBackslash then 1 else 0)
      + unescapedPipesFrom (Ascii.eqb c "\") s'
  end.

(** Whether the last character up to the end of [s] is a backslash. *)
Fixpoint endsWithBackslashFrom (prevBackslash : bool) (s : string) : bool :=
  match s with
  | EmptyString => prevBackslash
  | String c s' => endsWithBackslashFrom (Ascii.eqb c "\") s'
  end.

(** A file without any item. *)
Definition hasNoItem (file : ParsedFile) : Prop :=
  interfaces file = [] /\ typeAliases file = [] /\ functions file = [].

(** The number of items of one kind in a list of parsed files. *)
Definition totalOf {T : Type} (proj : ParsedFile -> list T)
           (parsed : list ParsedFile) : nat :=
  sum_list (map (fun p => length (proj p)) parsed).

(** The line that reports what was parsed. *)
Definition summaryLine (parsed : list ParsedFile) : string :=
  "Parsed " +:+ pretty (length parsed) +:+ " file(s): "
  +:+ pretty (totalOf interfaces parsed) +:+ " interfaces, "
  +:+ pretty (totalOf typeAliases parsed) +:+ " types, "
  +:+ pretty (totalOf functions parsed) +:+ " functions".

(** The lines written to standard error once the files are parsed. *)
Definition closingLines (writeFileSync : string -> string -> Completion unit)
           (markdown : string) (options : CliOptions)
           (parsed : list ParsedFile) : list string :=
  match parsed with
  | [] => []
  | _ :: _ =>
      summaryLine parsed
      :: match CliSpec.target options with
         | Some file =>
             match writeFileSync file markdown with
             | Return _ => ["Wrote documentation to " +:+ file]
             | Throw _ => []
             end
         | None => []
         end
  end.

End Notions.

(** * Properties *)

(** ** Loops that push onto an array *)

Section PushLoops.
Context {A B : Type}.

Lemma foldl_push_one (f : A -> B) (l : list A) (acc : list B) :
  foldl (fun acc x => acc ++ [f x]) acc l = acc ++ map f l.
Proof.
  revert acc. induction l as [|x l IH]; intros acc; simpl.
  - by rewrite app_nil_r.
  - rewrite IH. by rewrite <- app_assoc.
Qed.

Lemma foldl_push_many (g : A -> list B) (l : list A) (acc : list B) :
  foldl (fun acc x => acc ++ g x) acc l = acc ++ flat_map g l.
Proof.
  revert acc. induction l as [|x l IH]; intros acc; simpl.
  - by rewrite app_nil_r.
  - rewrite IH. by rewrite <- app_assoc.
Qed.

End PushLoops.

(** ** Extraction order (parser) *)

Section ExtractionOrder.
Import Parser SourceOrder.

Lemma getInterfaces_cons (st : Statement) (sf : SourceFile) :
  getInterfaces (st :: sf)
  = match st with
    | InterfaceStatement iface => iface :: getInterfaces sf
    | _ => getInterfaces sf
    end.
Proof. by destruct st. Qed.

Lemma getTypeAliases_cons (st : Statement) (sf : SourceFile) :
  getTypeAliases (st :: sf)
  = match st with
    | TypeAliasStatement alias => alias :: getTypeAliases sf
    | _ => getTypeAliases sf
    end.
Proof. by destruct st. Qed.

Lemma getFunctions_cons (st : Statement) (sf : SourceFile) :
  getFunctions (st :: sf)
  = match st with
    | FunctionStatement fn => fn :: getFunctions sf
    | _ => getFunctions sf
    end.
Proof. by destruct st. Qed.

Lemma parseInterfaces_source_order (sf : SourceFile) :
  parseInterfaces sf = interfacesInSourceOrder sf.
Proof.
  unfold parseInterfaces, interfacesInSourceOrder.
  induction sf as [|st sf IH]; [done|].
  rewrite getInterfaces_cons.
  destruct st as [iface| | | |]; cbn [flat_map interfacesOf app]; try exact IH.
  rewrite filter_cons. destruct (id_isExported iface) eqn:Hex.
  - rewrite decide_True by done. cbn [map app]. by rewrite IH.
  - rewrite decide_False by done. exact IH.
Qed.

Lemma parseTypeAliases_source_order (sf : SourceFile) :
  parseTypeAliases sf = typeAliasesInSourceOrder sf.
Proof.
  unfold parseTypeAliases, typeAliasesInSourceOrder.
  induction sf as [|st sf IH]; [done|].
  rewrite getTypeAliases_cons.
  destruct st as [|alias| | |]; cbn [flat_map typeAliasesOf app]; try exact IH.
  rewrite filter_cons. destruct (ta_isExported alias) eqn:Hex.
  - rewrite decide_True by done. cbn [map app]. by rewrite IH.
  - rewrite decide_False by done. exact IH.
Qed.

Lemma pushFunctionDeclarations_eq (sf : SourceFile) (acc : list ParsedFunction) :
  pushFunctionDeclarations sf acc = acc ++ declaredFunctionsInSourceOrder sf.
Proof.
  unfold pushFunctionDeclarations, declaredFunctionsInSourceOrder.
  revert acc. induction sf as [|st sf IH]; intros acc.
  - cbn. by rewrite app_nil_r.
  - rewrite getFunctions_cons.
    destruct st as [| |fn| |]; cbn [flat_map declaredFunctionsOf app foldl];
      try apply IH.
    rewrite IH. destruct (fd_isExported fn); [|done].
    by rewrite <- app_assoc.
Qed.

Lemma pushArrowFunctions_decls (vs : VariableStatement)
      (decls : list VariableDeclaration) (rest : list (VariableStatement * VariableDeclaration))
      (acc : list ParsedFunction) (step : list ParsedFunction -> VariableStatement * VariableDeclaration -> list ParsedFunction) :
  step = (fun functions '(varStatement, varDecl) =>
            if vs_isExported varStatement
            then match vd_getInitializer varDecl with
                 | Some (ArrowFunction init) =>
                     functions ++ [parseArrowFunction varStatement varDecl init]
                 | _ => functions
                 end
            else functions) ->
  foldl step acc (map (fun vd => (vs, vd)) decls ++ rest)
  = foldl step
          (acc ++ (if vs_isExported vs
                   then flat_map (arrowFunctionOf vs) decls else []))
          rest.
Proof.
  intros ->. revert acc. induction decls as [|vd decls IH]; intros acc; simpl.
  - destruct (vs_isExported vs); by rewrite app_nil_r.
  - rewrite IH. f_equal. unfold arrowFunctionOf at 2.
    destruct (vs_isExported vs); [|done].
    destruct (vd_getInitializer vd) as [[init| |]|]; simpl;
      by rewrite <- ?app_assoc.
Qed.

Lemma pushArrowFunctions_eq (sf : SourceFile) (acc : list ParsedFunction) :
  pushArrowFunctions sf acc = acc ++ arrowFunctionsInSourceOrder sf.
Proof.
  unfold pushArrowFunctions, arrowFunctionsInSourceOrder, getVariableDeclarations.
  revert acc. induction sf as [|st sf IH]; intros acc; simpl.
  - by rewrite app_nil_r.
  - destruct st as [| | |vs|]; simpl; try apply IH.
    erewrite pushArrowFunctions_decls by reflexivity.
    rewrite IH. by rewrite <- app_assoc.
Qed.

Lemma parseFunctions_eq (sf : SourceFile) :
  parseFunctions sf
  = declaredFunctionsInSourceOrder sf ++ arrowFunctionsInSourceOrder sf.
Proof.
  unfold parseFunctions.
  by rewrite pushArrowFunctions_eq, pushFunctionDeclarations_eq.
Qed.

Lemma functionsInSourceOrder_perm (sf : SourceFile) :
  functionsInSourceOrder sf
  ≡ₚ declaredFunctionsInSourceOrder sf ++ arrowFunctionsInSourceOrder sf.
Proof.
  unfold functionsInSourceOrder, declaredFunctionsInSourceOrder,
    arrowFunctionsInSourceOrder.
  induction sf as [|st sf IH]; simpl; [done|].
  rewrite IH. unfold functionsOf. solve_Permutation.
Qed.

End ExtractionOrder.

(** ** Claims on the declaration extractor *)

Section ExtractorClaims.
Import Parser SourceOrder Samples.

(** C1, as stated, fails: in [arrowBeforeFunction] the exported arrow
    binding [a] precedes the exported function declaration [f], and
    [ParsedFile.functions] lists [f] before [a]. *)
Lemma functions_not_in_source_order :
  map fn_name (functionsInSourceOrder arrowBeforeFunction) = ["a"; "f"]
  /\ map fn_name (functions (parseSourceFile "m.ts" arrowBeforeFunction))
     = ["f"; "a"]
  /\ functions (parseSourceFile "m.ts" arrowBeforeFunction)
     <> functionsInSourceOrder arrowBeforeFunction.
Proof. repeat split; [vm_compute; reflexivity..|]. by vm_compute. Qed.

(** C1, amended: in every [ParsedFile] produced by extraction,
    [interfaces] and [typeAliases] are in source declaration order;
    [functions] holds the exported function declarations in source order
    followed by the exported arrow-function bindings in source order, and
    so is a rearrangement of the functions in source order. *)
Theorem extraction_order (path : string) (sf : SourceFile) :
  interfaces (parseSourceFile path sf) = interfacesInSourceOrder sf
  /\ typeAliases (parseSourceFile path sf) = typeAliasesInSourceOrder sf
  /\ functions (parseSourceFile path sf)
     = declaredFunctionsInSourceOrder sf ++ arrowFunctionsInSourceOrder sf
  /\ functions (parseSourceFile path sf) ≡ₚ functionsInSourceOrder sf.
Proof.
  cbn [parseSourceFile interfaces typeAliases functions].
  split; [apply parseInterfaces_source_order|].
  split; [apply parseTypeAliases_source_order|].
  split; [apply parseFunctions_eq|].
  rewrite parseFunctions_eq. symmetry. apply functionsInSourceOrder_perm.
Qed.

(** C2, as stated, fails: [export const g = function () {}] is an exported
    variable whose initializer is an anonymous function expression, and
    extraction produces no function for it. *)
Lemma function_expression_not_extracted :
  functions (parseSourceFile "m.ts" functionExpressionBinding) = []
  /\ ~ (exists f, f ∈ functions (parseSourceFile "m.ts" functionExpressionBinding)
                /\ fn_name f = "g").
Proof.
  split; [reflexivity|]. intros (f & Hf & _).
  change (f ∈ @nil ParsedFunction) in Hf. by apply elem_of_nil in Hf.
Qed.

Lemma elem_of_declaredFunctions (f : ParsedFunction) (sf : SourceFile) :
  f ∈ declaredFunctionsInSourceOrder sf
  <-> exists fn, FunctionStatement fn ∈ sf /\ fd_isExported fn = true
              /\ f = parseFunctionDeclaration fn.
Proof.
  unfold declaredFunctionsInSourceOrder.
  rewrite list_elem_of_In, in_flat_map. split.
  - intros (st & Hst & Hf). apply list_elem_of_In in Hst.
    destruct st as [| |fn| |]; simpl in Hf; try done.
    destruct (fd_isExported fn) eqn:Hex; simpl in Hf; [|done].
    destruct Hf as [<-|[]]. by exists fn.
  - intros (fn & Hst & Hex & ->). exists (FunctionStatement fn).
    split; [by apply list_elem_of_In|]. simpl. rewrite Hex. by left.
Qed.

Lemma elem_of_arrowFunctions (f : ParsedFunction) (sf : SourceFile) :
  f ∈ arrowFunctionsInSourceOrder sf
  <-> exists vs vd init,
      VariableStatementNode vs ∈ sf /\ vs_isExported vs = true
      /\ vd ∈ vs_getDeclarations vs
      /\ vd_getInitializer vd = Some (ArrowFunction init)
      /\ f = parseArrowFunction vs vd init.
Proof.
  unfold arrowFunctionsInSourceOrder.
  rewrite list_elem_of_In, in_flat_map. split.
  - intros (st & Hst & Hf). apply list_elem_of_In in Hst.
    destruct st as [| | |vs|]; simpl in Hf; try done.
    destruct (vs_isExported vs) eqn:Hex; simpl in Hf; [|done].
    apply in_flat_map in Hf as (vd & Hvd & Hf).
    apply list_elem_of_In in Hvd. unfold arrowFunctionOf in Hf.
    destruct (vd_getInitializer vd) as [[init| |]|] eqn:Hinit;
      simpl in Hf; try done.
    destruct Hf as [<-|[]]. by exists vs, vd, init.
  - intros (vs & vd & init & Hst & Hex & Hvd & Hinit & ->).
    exists (VariableStatementNode vs).
    split; [by apply list_elem_of_In|]. simpl. rewrite Hex.
    apply in_flat_map. exists vd. split; [by apply list_elem_of_In|].
    unfold arrowFunctionOf. rewrite Hinit. by left.
Qed.

(** C2, amended: for every exported top-level variable declaration whose
    initializer is an arrow function, extraction produces a
    [ParsedFunction] whose name is the variable's binding name; every
    extracted function comes from an exported function declaration or from
    such an arrow-function binding, both as the same kind of record. *)
Theorem arrow_binding_extracted (path : string) (sf : SourceFile) :
  (forall vs vd init,
      VariableStatementNode vs ∈ sf ->
      vs_isExported vs = true ->
      vd ∈ vs_getDeclarations vs ->
      vd_getInitializer vd = Some (ArrowFunction init) ->
      parseArrowFunction vs vd init ∈ functions (parseSourceFile path sf)
      /\ fn_name (parseArrowFunction vs vd init) = vd_getName vd)
  /\ (forall f,
        f ∈ functions (parseSourceFile path sf) ->
        (exists fn, FunctionStatement fn ∈ sf /\ fd_isExported fn = true
                 /\ f = parseFunctionDeclaration fn)
        \/ (exists vs vd init,
              VariableStatementNode vs ∈ sf /\ vs_isExported vs = true
              /\ vd ∈ vs_getDeclarations vs
              /\ vd_getInitializer vd = Some (ArrowFunction init)
              /\ f = parseArrowFunction vs vd init
              /\ fn_name f = vd_getName vd)).
Proof.
  cbn [parseSourceFile functions]. rewrite parseFunctions_eq. split.
  - intros vs vd init Hst Hex Hvd Hinit. split; [|reflexivity].
    apply elem_of_app. right. apply elem_of_arrowFunctions.
    by exists vs, vd, init.
  - intros f [Hf|Hf]%elem_of_app.
    + left. by apply elem_of_declaredFunctions.
    + right. apply elem_of_arrowFunctions in Hf
        as (vs & vd & init & ? & ? & ? & ? & ->).
      by exists vs, vd, init.
Qed.

Lemma arrow_binding_extracted_witness :
  parseArrowFunction exportedArrowA
                     {| vd_getName := "a";
                        vd_getInitializer := Some (ArrowFunction voidArrow) |}
                     voidArrow
    ∈ functions (parseSourceFile "m.ts" arrowBeforeFunction)
  /\ fn_name (parseArrowFunction exportedArrowA
                 {| vd_getName := "a";
                    vd_getInitializer := Some (ArrowFunction voidArrow) |}
                 voidArrow) = "a".
Proof.
  apply (proj1 (arrow_binding_extracted "m.ts" arrowBeforeFunction)
               exportedArrowA
               {| vd_getName := "a";
                  vd_getInitializer := Some (ArrowFunction voidArrow) |}
               voidArrow).
  - unfold arrowBeforeFunction. apply list_elem_of_here.
  - reflexivity.
  - simpl. apply list_elem_of_here.
  - reflexivity.
Defined.

End ExtractorClaims.

(** ** Strings *)

Section StringFacts.
Local Arguments append : simpl nomatch.

Lemma append_assoc (a b c : string) : (a +:+ b) +:+ c = a +:+ (b +:+ c).
Proof. induction a as [|x a IH]; simpl; [done|]. by rewrite IH. Qed.

Lemma append_nil_r (a : string) : a +:+ EmptyString = a.
Proof. induction a as [|x a IH]; simpl; [done|]. by rewrite IH. Qed.

Lemma append_inv_head (a b c : string) : a +:+ b = a +:+ c -> b = c.
Proof. induction a as [|x a IH]; simpl; [done|]. intros [=]. auto. Qed.

Lemma length_append (a b : string) :
  String.length (a +:+ b) = String.length a + String.length b.
Proof. induction a as [|x a IH]; simpl; [done|]. by rewrite IH. Qed.

Lemma append_inv_tail (a b c : string) : a +:+ c = b +:+ c -> a = b.
Proof.
  intros H.
  assert (Hlen : String.length a = String.length b).
  { apply (f_equal String.length) in H.
    rewrite !length_append in H. lia. }
  revert b H Hlen. induction a as [|x a IH]; intros [|y b] H Hlen;
    simpl in *; try done.
  injection H as -> H. f_equal. apply IH; [done|lia].
Qed.

Lemma toLowerCase_append (a b : string) :
  toLowerCase (a +:+ b) = toLowerCase a +:+ toLowerCase b.
Proof. induction a as [|x a IH]; simpl; [done|]. by rewrite IH. Qed.

End StringFacts.

(** ** Anchor normalisation *)

Section AnchorFacts.
Import AnchorSpec Generator.
Local Arguments append : simpl nomatch.

Lemma runs_cons (c : ascii) (s : string) :
  runs (String c s)
  = match runs s with
    | (b, r) :: rest =>
        if Bool.eqb b (isLowerAlnum c)
        then (b, String c r) :: rest
        else (isLowerAlnum c, String c EmptyString) :: (b, r) :: rest
    | [] => [(isLowerAlnum c, String c EmptyString)]
    end.
Proof. reflexivity. Qed.

(** The runs of a string, put together again, are the string. *)
Lemma runs_concat (s : string) : concatStrings (map snd (runs s)) = s.
Proof.
  induction s as [|c s IH]; [done|]. rewrite runs_cons.
  destruct (runs s) as [|[b r] rest]; simpl in *; [by rewrite <- IH|].
  destruct (Bool.eqb b (isLowerAlnum c)); simpl; by rewrite <- IH.
Qed.

Lemma runs_wellFormed (s : string) : Forall wellFormedRun (runs s).
Proof.
  induction s as [|c s IH]; [constructor|]. rewrite runs_cons.
  destruct (runs s) as [|[b r] rest].
  - constructor; [|constructor]. split; simpl; [done|]. by repeat constructor.
  - destruct (Bool.eqb b (isLowerAlnum c)) eqn:Hb.
    + apply Bool.eqb_prop in Hb. inversion IH as [|? ? [Hne Hall] Hrest]; subst.
      constructor; [|done]. split; simpl in *; [done|]. by constructor.
    + constructor; [|done]. split; simpl; [done|]. by repeat constructor.
Qed.

Lemma alternating_head (b : bool) (r r' : string) (rest : list (bool * string)) :
  alternating ((b, r) :: rest) -> alternating ((b, r') :: rest).
Proof. by destruct rest as [|[b2 r2] rest]. Qed.

Lemma runs_alternating (s : string) : alternating (runs s).
Proof.
  induction s as [|c s IH]; [done|]. rewrite runs_cons.
  destruct (runs s) as [|[b r] rest]; [done|].
  destruct (Bool.eqb b (isLowerAlnum c)) eqn:Hb.
  - by eapply alternating_head.
  - split; [|done]. intros <-. by rewrite Bool.eqb_reflx in Hb.
Qed.

(** The scan of the regular expression writes each run inside the class as
    it is and one hyphen for each run outside it. *)
Lemma replaceNonAlnumRuns_runs (s : string) :
  replaceNonAlnumRuns s = replaceRuns s
  /\ skipRun s = concatStrings (map renderRun (afterLeadingGap (runs s))).
Proof.
  unfold replaceRuns.
  induction s as [|c s [IHr IHk]]; [done|]. rewrite runs_cons.
  cbn [replaceNonAlnumRuns skipRun]. rewrite IHr, IHk. clear IHr IHk.
  destruct (isLowerAlnum c) eqn:Hc;
    destruct (runs s) as [|[[|] r] rest]; simpl; done.
Qed.

(** After a hyphen the scan is inside a run, whatever stood before. *)
Lemma replaceNonAlnumRuns_after_hyphen (a b : string) :
  replaceNonAlnumRuns (a +:+ String "-" b)
  = replaceNonAlnumRuns (a +:+ "-") +:+ skipRun b
  /\ skipRun (a +:+ String "-" b) = skipRun (a +:+ "-") +:+ skipRun b.
Proof.
  induction a as [|c a [IHr IHk]]; [done|].
  cbn [append replaceNonAlnumRuns skipRun]. rewrite IHr, IHk.
  by destruct (isLowerAlnum c).
Qed.

Lemma toAnchor_combined (name sourceFile : string) :
  toAnchor (name +:+ "-" +:+ sourceFile)
  = toAnchor (name +:+ "-") +:+ normalizedSuffix sourceFile.
Proof.
  unfold toAnchor, normalizedSuffix.
  rewrite !toLowerCase_append.
  change (toLowerCase "-") with "-".
  change (toLowerCase (String "-" sourceFile))
    with (String "-" (toLowerCase sourceFile)).
  change ("-" +:+ toLowerCase sourceFile)
    with (String "-" (toLowerCase sourceFile)).
  apply replaceNonAlnumRuns_after_hyphen.
Qed.

End AnchorFacts.

(** ** Collision resolver *)

Section CollisionFacts.
Import Generator Pooled AnchorSpec.

Lemma occurrences_cons (name n : string) (l : list string) :
  occurrences name (n :: l)
  = if decide (n = name) then S (occurrences name l) else occurrences name l.
Proof.
  unfold occurrences. rewrite filter_cons. by destruct (decide (n = name)).
Qed.

Lemma occurrences_pos (name : string) (l : list string) :
  name ∈ l <-> 1 <= occurrences name l.
Proof.
  induction l as [|n l IH].
  - split; [by intros ?%elem_of_nil|]. unfold occurrences. simpl. lia.
  - rewrite occurrences_cons, elem_of_cons, IH.
    destruct (decide (n = name)); split; intros; try lia; naive_solver lia.
Qed.

(** The loop of [findDuplicateNames] from any state: [seen] gains every
    name of the list; [duplicates] gains the names met while in [seen]. *)
Lemma foldl_noteName (names : list string) (seen duplicates : gset string)
      (name : string) :
  (name ∈ fst (foldl noteName (seen, duplicates) names)
   <-> name ∈ seen \/ name ∈ names)
  /\ (name ∈ snd (foldl noteName (seen, duplicates) names)
      <-> name ∈ duplicates
          \/ (name ∈ seen /\ name ∈ names)
          \/ 2 <= occurrences name names).
Proof.
  revert seen duplicates.
  induction names as [|n names IH]; intros seen duplicates.
  - cbn [foldl fst snd]. unfold occurrences. simpl.
    split; [set_solver|]. split; [tauto|].
    intros [?|[[_ ?%elem_of_nil]|?]]; [done|done|lia].
  - cbn [foldl noteName].
    destruct (IH ({[n]} ∪ seen)
                 (if bool_decide (n ∈ seen) then {[n]} ∪ duplicates
                  else duplicates)) as [IH1 IH2].
    rewrite IH1, IH2. clear IH IH1 IH2.
    rewrite occurrences_cons, !elem_of_cons.
    pose proof (occurrences_pos name names) as Hpos.
    split; [set_solver|].
    destruct (decide (n = name)) as [->|Hne].
    + case_bool_decide; set_solver by lia.
    + case_bool_decide; set_solver by lia.
Qed.

(** A name is in the duplicate set exactly when it occurs at least twice. *)
Lemma elem_of_findDuplicateNames (names : list string) (name : string) :
  name ∈ findDuplicateNames names <-> 2 <= occurrences name names.
Proof.
  unfold findDuplicateNames.
  destruct (foldl_noteName names ∅ ∅ name) as [_ ->]. set_solver.
Qed.

End CollisionFacts.

(** ** Claims on the collision resolver *)

Section CollisionClaims.
Import Generator Pooled AnchorSpec Samples.

(** C4, as stated, fails: [src/a.ts] and [lib/a.ts] both export [Config];
    the name occurs twice in the pooled names, and its two occurrences get
    the same display label and the same anchor. *)
Lemma same_base_name_same_labels :
  Pooled.names Posix sameBaseNameFiles = ["Config"; "Config"]
  /\ interfaceLabels Posix sameBaseNameFiles
     = [("Config (a.ts)", "config-a-ts"); ("Config (a.ts)", "config-a-ts")].
Proof. split; vm_compute; reflexivity. Qed.

(** C4, amended: for every name occurring more than once in the pooled
    list of emitted names, each occurrence is labelled
    ["name (fileBaseName)"] and anchored at the normal form of
    ["name-fileBaseName"]; two occurrences have distinct display labels
    exactly when their file base names differ, and distinct anchors
    exactly when the normal forms of their file base names differ.  A name
    occurring exactly once is displayed bare and anchored at its own
    normal form. *)
Theorem duplicate_names_disambiguated
        (names : list string) (name sf1 sf2 : string) :
  let duplicates := findDuplicateNames names in
  (2 <= occurrences name names ->
   getDisplayName name sf1 duplicates = name +:+ " (" +:+ sf1 +:+ ")"
   /\ getAnchor name sf1 duplicates = toAnchor (name +:+ "-" +:+ sf1)
   /\ (getDisplayName name sf1 duplicates = getDisplayName name sf2 duplicates
       <-> sf1 = sf2)
   /\ (getAnchor name sf1 duplicates = getAnchor name sf2 duplicates
       <-> normalizedSuffix sf1 = normalizedSuffix sf2))
  /\ (occurrences name names = 1 ->
      getDisplayName name sf1 duplicates = name
      /\ getAnchor name sf1 duplicates = toAnchor name).
Proof.
  intros duplicates. unfold getDisplayName, getAnchor. split.
  - intros Hdup. apply elem_of_findDuplicateNames in Hdup.
    fold duplicates in Hdup. rewrite !bool_decide_eq_true_2 by done.
    split; [done|]. split; [done|]. split.
    + split; [|by intros ->].
      intros H%append_inv_head%append_inv_head. by eapply append_inv_tail.
    + rewrite !toAnchor_combined. split; [|by intros ->].
      apply append_inv_head.
  - intros Hone.
    assert (name ∉ duplicates) as Hnot.
    { unfold duplicates. rewrite elem_of_findDuplicateNames. lia. }
    by rewrite !bool_decide_eq_false_2 by done.
Qed.

Lemma duplicate_names_disambiguated_witness :
  getDisplayName "Config" "a.ts" (findDuplicateNames ["Config"; "Config"; "Id"])
  = "Config (a.ts)"
  /\ getDisplayName "Id" "a.ts" (findDuplicateNames ["Config"; "Config"; "Id"])
     = "Id".
Proof.
  split.
  - apply (proj1 (duplicate_names_disambiguated
                    ["Config"; "Config"; "Id"] "Config" "a.ts" "b.ts")).
    vm_compute. lia.
  - apply (proj2 (duplicate_names_disambiguated
                    ["Config"; "Config"; "Id"] "Id" "a.ts" "b.ts")).
    vm_compute. reflexivity.
Defined.

(** C5: anchor generation lower-cases its input and replaces every
    maximal run of characters outside [[a-z0-9]] with a single hyphen
    (the runs partition the lower-cased input, are not empty, are each of
    one class and alternate in class); two files each exporting an
    interface [Config] yield the display names ["Config (a.ts)"] and
    ["Config (b.ts)"] with the anchors [config-a-ts] and [config-b-ts],
    and a single file exporting [Config] yields ["Config"] and
    [config]. *)
Theorem anchor_normalisation :
  (forall s,
      toAnchor s = replaceRuns (toLowerCase s)
      /\ concatStrings (map snd (runs (toLowerCase s))) = toLowerCase s
      /\ Forall wellFormedRun (runs (toLowerCase s))
      /\ alternating (runs (toLowerCase s)))
  /\ (forall host,
        interfaceLabels host twoConfigFiles
        = [("Config (a.ts)", "config-a-ts"); ("Config (b.ts)", "config-b-ts")])
  /\ (forall host, interfaceLabels host singleConfigFile = [("Config", "config")]).
Proof.
  split; [|split].
  - intros s. split; [apply replaceNonAlnumRuns_runs|].
    split; [apply runs_concat|].
    split; [apply runs_wellFormed|apply runs_alternating].
  - intros []; vm_compute; reflexivity.
  - intros []; vm_compute; reflexivity.
Qed.

End CollisionClaims.

(** ** The renderer in closed form *)

Section RendererFacts.
Import Generator Pooled.

Lemma withSource_eq {T : Type} (sf : string) (all : list (ItemWithSource T))
      (items : list T) :
  withSource sf all items
  = all ++ map (fun it => {| item := it; sourceFile := sf |}) items.
Proof. apply foldl_push_one. Qed.

Lemma collectItems_from (host : Platform) (files : list ParsedFile)
      (allI : list (ItemWithSource ParsedInterface))
      (allT : list (ItemWithSource ParsedTypeAlias))
      (allF : list (ItemWithSource ParsedFunction)) :
  foldl (fun '(allInterfaces, allTypeAliases, allFunctions) file =>
           let sourceFile := Path.basename host (filePath file) in
           (withSource sourceFile allInterfaces (interfaces file),
            withSource sourceFile allTypeAliases (typeAliases file),
            withSource sourceFile allFunctions (functions file)))
        (allI, allT, allF) files
  = (allI ++ itemsOf interfaces host files,
     allT ++ itemsOf typeAliases host files,
     allF ++ itemsOf functions host files).
Proof.
  revert allI allT allF.
  induction files as [|file files IH]; intros allI allT allF.
  - cbn. by rewrite !app_nil_r.
  - cbn [foldl]. rewrite IH, !withSource_eq.
    unfold itemsOf. cbn [flat_map]. by rewrite <- !app_assoc.
Qed.

Lemma collectItems_eq (host : Platform) (files : list ParsedFile) :
  collectItems host files
  = (itemsOf interfaces host files, itemsOf typeAliases host files,
     itemsOf functions host files).
Proof. unfold collectItems. by rewrite collectItems_from. Qed.

Lemma tableOfContents_eq
      (allI : list (ItemWithSource ParsedInterface))
      (allT : list (ItemWithSource ParsedTypeAlias))
      (allF : list (ItemWithSource ParsedFunction))
      (dup : gset string) (lines : list string) :
  tableOfContents allI allT allF dup lines
  = match allI, allT, allF with
    | [], [], [] => lines
    | _, _, _ =>
        lines ++ ["## Table of Contents"; EmptyString]
        ++ tocSection "### Interfaces"
             (map (fun i => tocEntry (iface_name (item i)) (sourceFile i) dup)
                  allI)
        ++ tocSection "### Types"
             (map (fun t => tocEntry (alias_name (item t)) (sourceFile t) dup)
                  allT)
        ++ tocSection "### Functions"
             (map (fun f => tocFunctionEntry (fn_name (item f)) (sourceFile f)
                                             dup)
                  allF)
        ++ ["---"; EmptyString]
    end.
Proof.
  unfold tableOfContents.
  destruct allI as [|i allI], allT as [|t allT], allF as [|f allF];
    cbn [length Nat.add Nat.ltb Nat.leb map tocSection];
    rewrite ?foldl_push_one; cbn [map]; by rewrite <- ?app_assoc.
Qed.

Lemma generateMarkdownLines_eq (host : Platform) (files : list ParsedFile)
      (options : GeneratorOptions) :
  generateMarkdownLines host files options
  = tableOfContents (itemsOf interfaces host files)
                    (itemsOf typeAliases host files)
                    (itemsOf functions host files)
                    (duplicateNames host files)
                    ["# " +:+ default "API Reference" (title options);
                     EmptyString]
    ++ flat_map (fun i => generateInterface (item i) (sourceFile i)
                                            (duplicateNames host files)
                            ++ [EmptyString])
                (itemsOf interfaces host files)
    ++ flat_map (fun t => generateTypeAlias (item t) (sourceFile t)
                                            (duplicateNames host files)
                            ++ [EmptyString])
                (itemsOf typeAliases host files)
    ++ flat_map (fun f => generateFunction (item f) (sourceFile f)
                                           (duplicateNames host files)
                            ++ [EmptyString])
                (itemsOf functions host files).
Proof.
  unfold generateMarkdownLines. rewrite collectItems_eq.
  cbv zeta. rewrite !foldl_push_many.
  unfold duplicateNames, names. by rewrite <- !app_assoc.
Qed.

Lemma elem_of_itemsOf {T : Type} (proj : ParsedFile -> list T)
      (host : Platform) (files : list ParsedFile) (file : ParsedFile) (it : T) :
  file ∈ files -> it ∈ proj file ->
  {| item := it; sourceFile := Path.basename host (filePath file) |}
    ∈ itemsOf proj host files.
Proof.
  intros Hfile Hit. unfold itemsOf.
  apply list_elem_of_In, in_flat_map. exists file.
  split; [by apply list_elem_of_In|].
  apply (in_map (fun it => {| item := it; sourceFile := _ |})).
  by apply list_elem_of_In.
Qed.

Lemma elem_of_tocSection (heading entry : string) (entries : list string) :
  entry ∈ entries -> entry ∈ tocSection heading entries.
Proof.
  destruct entries as [|e entries]; [done|]. intros H.
  unfold tocSection. set_solver.
Qed.

Lemma elem_of_flat_map_section {T : Type} (g : T -> list string)
      (l : list T) (x : T) (line : string) :
  x ∈ l -> line ∈ g x -> line ∈ flat_map g l.
Proof.
  intros Hx Hline. apply list_elem_of_In, in_flat_map.
  exists x. split; by apply list_elem_of_In.
Qed.

End RendererFacts.

(** ** Claims on headings and the table of contents *)

Section HeadingClaims.
Import Generator Pooled Samples.

Lemma generateFunction_head (fn : ParsedFunction) (sf : string)
      (dup : gset string) :
  exists rest,
    generateFunction fn sf dup
    = ("## " +:+ getDisplayName (fn_name fn) sf dup +:+ "()") :: rest.
Proof.
  unfold generateFunction, pushDescription. cbv zeta.
  destruct (fn_description fn) as [d|]; [destruct (truthy d)|];
    destruct (fn_parameters fn); cbn [app]; eexists; reflexivity.
Qed.

Lemma generateInterface_head (iface : ParsedInterface) (sf : string)
      (dup : gset string) :
  exists rest,
    generateInterface iface sf dup
    = ("## " +:+ getDisplayName (iface_name iface) sf dup) :: rest.
Proof.
  unfold generateInterface, pushDescription. cbv zeta.
  destruct (iface_extends iface) as [[|e es]|];
    (destruct (iface_description iface) as [d|]; [destruct (truthy d)|]);
    destruct (iface_properties iface); cbn [app]; eexists; reflexivity.
Qed.

Lemma generateTypeAlias_head (alias : ParsedTypeAlias) (sf : string)
      (dup : gset string) :
  exists rest,
    generateTypeAlias alias sf dup
    = ("## " +:+ getDisplayName (alias_name alias) sf dup) :: rest.
Proof.
  unfold generateTypeAlias, pushDescription. cbv zeta.
  destruct (alias_description alias) as [d|]; [destruct (truthy d)|];
    cbn [app]; eexists; reflexivity.
Qed.

Lemma toc_interface_entry allI allT allF dup lines
      (i : ItemWithSource ParsedInterface) :
  i ∈ allI ->
  tocEntry (iface_name (item i)) (sourceFile i) dup
    ∈ tableOfContents allI allT allF dup lines.
Proof.
  intros Hi. rewrite tableOfContents_eq.
  assert (tocEntry (iface_name (item i)) (sourceFile i) dup
            ∈ tocSection "### Interfaces"
                (map (fun i => tocEntry (iface_name (item i)) (sourceFile i) dup)
                     allI)) as Hsec.
  { apply elem_of_tocSection, list_elem_of_In.
    apply (in_map (fun i => tocEntry (iface_name (item i)) (sourceFile i) dup)).
    by apply list_elem_of_In. }
  destruct allI; [by apply elem_of_nil in Hi|].
  rewrite !elem_of_app. auto.
Qed.

Lemma toc_alias_entry allI allT allF dup lines
      (t : ItemWithSource ParsedTypeAlias) :
  t ∈ allT ->
  tocEntry (alias_name (item t)) (sourceFile t) dup
    ∈ tableOfContents allI allT allF dup lines.
Proof.
  intros Ht. rewrite tableOfContents_eq.
  assert (tocEntry (alias_name (item t)) (sourceFile t) dup
            ∈ tocSection "### Types"
                (map (fun t => tocEntry (alias_name (item t)) (sourceFile t) dup)
                     allT)) as Hsec.
  { apply elem_of_tocSection, list_elem_of_In.
    apply (in_map (fun t => tocEntry (alias_name (item t)) (sourceFile t) dup)).
    by apply list_elem_of_In. }
  destruct allT; [by apply elem_of_nil in Ht|].
  destruct allI; rewrite !elem_of_app; auto.
Qed.

Lemma toc_function_entry allI allT allF dup lines
      (f : ItemWithSource ParsedFunction) :
  f ∈ allF ->
  tocFunctionEntry (fn_name (item f)) (sourceFile f) dup
    ∈ tableOfContents allI allT allF dup lines.
Proof.
  intros Hf. rewrite tableOfContents_eq.
  assert (tocFunctionEntry (fn_name (item f)) (sourceFile f) dup
            ∈ tocSection "### Functions"
                (map (fun f => tocFunctionEntry (fn_name (item f))
                                                (sourceFile f) dup)
                     allF)) as Hsec.
  { apply elem_of_tocSection, list_elem_of_In.
    apply (in_map (fun f => tocFunctionEntry (fn_name (item f))
                                             (sourceFile f) dup)).
    by apply list_elem_of_In. }
  destruct allF; [by apply elem_of_nil in Hf|].
  destruct allI, allT; rewrite !elem_of_app; auto 6.
Qed.

(** C3, as stated, fails: for [export function f() {}] the display name is
    [f], while the section heading reads [f()] and the link text of the
    table-of-contents entry reads [f()]. *)
Lemma function_heading_has_parentheses :
  getDisplayName "f" "a.ts" (duplicateNames Posix singleFunctionFile) = "f"
  /\ generateMarkdownLines Posix singleFunctionFile {| title := None |}
     = ["# API Reference"; EmptyString;
        "## Table of Contents"; EmptyString;
        "### Functions"; EmptyString;
        "- [f()](#f)"; EmptyString;
        "---"; EmptyString;
        "## f()"; EmptyString;
        "```typescript"; "function f(): void"; "```"; EmptyString;
        "**Returns:** `void`"; EmptyString; "---"; EmptyString]
  /\ (("## " +:+ "f") ∉ generateMarkdownLines Posix singleFunctionFile
                                            {| title := None |})
  /\ ("- [f](#f)" ∉ generateMarkdownLines Posix singleFunctionFile
                                         {| title := None |}).
Proof.
  split; [vm_compute; reflexivity|]. split; [vm_compute; reflexivity|].
  split; apply (bool_decide_eq_false_1 _); vm_compute; reflexivity.
Qed.

(** C3, amended: for every rendered function the level-2 heading is the
    display name followed by [()], and its table-of-contents entry is a
    markdown link whose text is the display name followed by [()] and
    whose target is the item's anchor; for interfaces and type aliases the
    heading and the link text are exactly the display name. *)
Theorem headings_and_toc_entries (host : Platform) (files : list ParsedFile)
        (options : GeneratorOptions) (file : ParsedFile) :
  file ∈ files ->
  let duplicates := duplicateNames host files in
  let sf := Path.basename host (filePath file) in
  let lines := generateMarkdownLines host files options in
  (forall fn, fn ∈ functions file ->
     let displayName := getDisplayName (fn_name fn) sf duplicates in
     let anchor := getAnchor (fn_name fn) sf duplicates in
     hd_error (generateFunction fn sf duplicates)
     = Some ("## " +:+ displayName +:+ "()")
     /\ ("## " +:+ displayName +:+ "()") ∈ lines
     /\ ("- [" +:+ displayName +:+ "()](#" +:+ anchor +:+ ")") ∈ lines)
  /\ (forall iface, iface ∈ interfaces file ->
        let displayName := getDisplayName (iface_name iface) sf duplicates in
        let anchor := getAnchor (iface_name iface) sf duplicates in
        hd_error (generateInterface iface sf duplicates)
        = Some ("## " +:+ displayName)
        /\ ("## " +:+ displayName) ∈ lines
        /\ ("- [" +:+ displayName +:+ "](#" +:+ anchor +:+ ")") ∈ lines)
  /\ (forall alias, alias ∈ typeAliases file ->
        let displayName := getDisplayName (alias_name alias) sf duplicates in
        let anchor := getAnchor (alias_name alias) sf duplicates in
        hd_error (generateTypeAlias alias sf duplicates)
        = Some ("## " +:+ displayName)
        /\ ("## " +:+ displayName) ∈ lines
        /\ ("- [" +:+ displayName +:+ "](#" +:+ anchor +:+ ")") ∈ lines).
Proof.
  intros Hfile duplicates sf lines. subst lines.
  rewrite generateMarkdownLines_eq. fold duplicates.
  split; [|split].
  - intros fn Hfn displayName anchor.
    pose proof (elem_of_itemsOf functions host files file fn Hfile Hfn) as Hit.
    destruct (generateFunction_head fn sf duplicates) as [rest Hhead].
    split; [by rewrite Hhead|]. split.
    + rewrite !elem_of_app. do 3 right.
      eapply elem_of_flat_map_section; [exact Hit|].
      cbn [item sourceFile]. fold sf. rewrite Hhead. set_solver.
    + apply elem_of_app. left.
      apply (toc_function_entry _ _ _ _ _ _ Hit).
  - intros iface Hiface displayName anchor.
    pose proof (elem_of_itemsOf interfaces host files file iface Hfile Hiface)
      as Hit.
    destruct (generateInterface_head iface sf duplicates) as [rest Hhead].
    split; [by rewrite Hhead|]. split.
    + rewrite !elem_of_app. right. left.
      eapply elem_of_flat_map_section; [exact Hit|].
      cbn [item sourceFile]. fold sf. rewrite Hhead. set_solver.
    + apply elem_of_app. left.
      apply (toc_interface_entry _ _ _ _ _ _ Hit).
  - intros alias Halias displayName anchor.
    pose proof (elem_of_itemsOf typeAliases host files file alias Hfile Halias)
      as Hit.
    destruct (generateTypeAlias_head alias sf duplicates) as [rest Hhead].
    split; [by rewrite Hhead|]. split.
    + rewrite !elem_of_app. do 2 right. left.
      eapply elem_of_flat_map_section; [exact Hit|].
      cbn [item sourceFile]. fold sf. rewrite Hhead. set_solver.
    + apply elem_of_app. left.
      apply (toc_alias_entry _ _ _ _ _ _ Hit).
Qed.

Lemma headings_and_toc_entries_witness :
  "## f()" ∈ generateMarkdownLines Posix singleFunctionFile {| title := None |}
  /\ "- [f()](#f)" ∈ generateMarkdownLines Posix singleFunctionFile
                                           {| title := None |}.
Proof.
  destruct (headings_and_toc_entries
              Posix singleFunctionFile {| title := None |}
              (Parser.parseSourceFile "a.ts" [FunctionStatement exportedFunctionF]))
    as [Hfn _]; [apply list_elem_of_here|].
  destruct (Hfn (Parser.parseFunctionDeclaration exportedFunctionF))
    as (_ & Hheading & Hentry); [apply list_elem_of_here|].
  split; [exact Hheading|exact Hentry].
Defined.

End HeadingClaims.

(** ** Claims on the determinism of rendering *)

Section DeterminismClaims.
Import Generator Pooled Samples.

Lemma itemsOf_sameItems {T : Type} (proj : ParsedFile -> list T)
      (host1 host2 : Platform) (files : list ParsedFile) :
  sameItems (itemsOf proj host1 files) (itemsOf proj host2 files).
Proof.
  unfold sameItems, itemsOf.
  induction files as [|file files IH]; cbn [flat_map]; [constructor|].
  apply Forall2_app; [|exact IH].
  induction (proj file) as [|it its IHits]; cbn [map]; by constructor.
Qed.

Lemma sameItems_map {T B : Type} (e1 e2 : ItemWithSource T -> B)
      (l1 l2 : list (ItemWithSource T)) :
  sameItems l1 l2 ->
  (forall x y, item x = item y -> e1 x = e2 y) ->
  map e1 l1 = map e2 l2.
Proof.
  intros Hsame He. induction Hsame as [|x y l1 l2 Hxy _ IH]; [done|].
  cbn [map]. by rewrite IH, (He x y Hxy).
Qed.

Lemma sameItems_flat_map {T B : Type} (g1 g2 : ItemWithSource T -> list B)
      (l1 l2 : list (ItemWithSource T)) :
  sameItems l1 l2 ->
  (forall x y, item x = item y -> g1 x = g2 y) ->
  flat_map g1 l1 = flat_map g2 l2.
Proof.
  intros Hsame Hg. induction Hsame as [|x y l1 l2 Hxy _ IH]; [done|].
  cbn [flat_map]. by rewrite IH, (Hg x y Hxy).
Qed.

(** The pooled names do not depend on the host. *)
Lemma names_host (host1 host2 : Platform) (files : list ParsedFile) :
  names host1 files = names host2 files.
Proof.
  unfold names, pooledNames.
  f_equal; [|f_equal];
    (eapply sameItems_map; [apply itemsOf_sameItems|by intros x y ->]).
Qed.

Lemma duplicateNames_host (host1 host2 : Platform) (files : list ParsedFile) :
  duplicateNames host1 files = duplicateNames host2 files.
Proof. unfold duplicateNames. by rewrite (names_host host1 host2). Qed.

Lemma getDisplayName_unique (name sf : string) :
  getDisplayName name sf ∅ = name.
Proof. unfold getDisplayName. by rewrite bool_decide_eq_false_2 by set_solver. Qed.

Lemma getAnchor_unique (name sf : string) :
  getAnchor name sf ∅ = toAnchor name.
Proof. unfold getAnchor. by rewrite bool_decide_eq_false_2 by set_solver. Qed.

Lemma tableOfContents_sameItems allI1 allI2 allT1 allT2 allF1 allF2
      (lines : list string) :
  sameItems allI1 allI2 -> sameItems allT1 allT2 -> sameItems allF1 allF2 ->
  tableOfContents allI1 allT1 allF1 ∅ lines
  = tableOfContents allI2 allT2 allF2 ∅ lines.
Proof.
  intros HI HT HF. rewrite !tableOfContents_eq.
  rewrite (sameItems_map
             (fun i => tocEntry (iface_name (item i)) (sourceFile i) ∅)
             (fun i => tocEntry (iface_name (item i)) (sourceFile i) ∅)
             allI1 allI2 HI).
  2:{ intros x y Hxy. unfold tocEntry.
      by rewrite !getDisplayName_unique, !getAnchor_unique, Hxy. }
  rewrite (sameItems_map
             (fun t => tocEntry (alias_name (item t)) (sourceFile t) ∅)
             (fun t => tocEntry (alias_name (item t)) (sourceFile t) ∅)
             allT1 allT2 HT).
  2:{ intros x y Hxy. unfold tocEntry.
      by rewrite !getDisplayName_unique, !getAnchor_unique, Hxy. }
  rewrite (sameItems_map
             (fun f => tocFunctionEntry (fn_name (item f)) (sourceFile f) ∅)
             (fun f => tocFunctionEntry (fn_name (item f)) (sourceFile f) ∅)
             allF1 allF2 HF).
  2:{ intros x y Hxy. unfold tocFunctionEntry.
      by rewrite !getDisplayName_unique, !getAnchor_unique, Hxy. }
  by destruct HI, HT, HF.
Qed.

Lemma itemsOf_ext {T : Type} (proj : ParsedFile -> list T)
      (host1 host2 : Platform) (files : list ParsedFile) :
  (forall file, file ∈ files ->
                Path.basename host1 (filePath file)
                = Path.basename host2 (filePath file)) ->
  itemsOf proj host1 files = itemsOf proj host2 files.
Proof.
  unfold itemsOf. induction files as [|file files IH]; intros Hbase; [done|].
  cbn [flat_map]. rewrite IH by (intros f Hf; apply Hbase; set_solver).
  by rewrite (Hbase file) by set_solver.
Qed.

(** C7, as stated, fails: the same files and configuration render to
    different documents under the path rules of POSIX and of Windows, for
    the base name of [x\a.ts] is [x\a.ts] under the former and [a.ts]
    under the latter. *)
Lemma rendering_depends_on_host :
  interfaceLabels Posix backslashPathFiles
  = [("Config (x\a.ts)", "config-x-a-ts"); ("Config (x\b.ts)", "config-x-b-ts")]
  /\ interfaceLabels Win32 backslashPathFiles
     = [("Config (a.ts)", "config-a-ts"); ("Config (b.ts)", "config-b-ts")]
  /\ generateMarkdown Posix backslashPathFiles {| title := None |}
     <> generateMarkdown Win32 backslashPathFiles {| title := None |}.
Proof.
  split; [vm_compute; reflexivity|]. split; [vm_compute; reflexivity|].
  by vm_compute.
Qed.

(** C7, amended: rendering is a function of the ordered [ParsedFile]
    list, the configuration and the path rules of the host; two hosts
    render the same document whenever they agree on the base name of every
    file, and whenever no item name is duplicated. *)
Theorem rendering_determined (host1 host2 : Platform)
        (files : list ParsedFile) (options : GeneratorOptions) :
  ((forall file, file ∈ files ->
                 Path.basename host1 (filePath file)
                 = Path.basename host2 (filePath file)) ->
   generateMarkdown host1 files options = generateMarkdown host2 files options)
  /\ (duplicateNames host1 files = ∅ ->
      generateMarkdown host1 files options
      = generateMarkdown host2 files options).
Proof.
  unfold generateMarkdown. split.
  - intros Hbase. f_equal. rewrite !generateMarkdownLines_eq.
    rewrite <- (duplicateNames_host host1 host2).
    by rewrite !(itemsOf_ext _ host1 host2 files Hbase).
  - intros Hunique. f_equal. rewrite !generateMarkdownLines_eq.
    rewrite <- (duplicateNames_host host1 host2), Hunique.
    f_equal; [|f_equal; [|f_equal]].
    + apply tableOfContents_sameItems; apply itemsOf_sameItems.
    + eapply sameItems_flat_map; [apply itemsOf_sameItems|].
      intros x y Hxy. unfold generateInterface.
      by rewrite !getDisplayName_unique, Hxy.
    + eapply sameItems_flat_map; [apply itemsOf_sameItems|].
      intros x y Hxy. unfold generateTypeAlias.
      by rewrite !getDisplayName_unique, Hxy.
    + eapply sameItems_flat_map; [apply itemsOf_sameItems|].
      intros x y Hxy. unfold generateFunction.
      by rewrite !getDisplayName_unique, Hxy.
Qed.

Lemma rendering_determined_witness :
  generateMarkdown Posix twoConfigFiles {| title := None |}
  = generateMarkdown Win32 twoConfigFiles {| title := None |}
  /\ generateMarkdown Posix singleConfigFile {| title := None |}
     = generateMarkdown Win32 singleConfigFile {| title := None |}.
Proof.
  split.
  - apply (proj1 (rendering_determined
                    Posix Win32 twoConfigFiles {| title := None |})).
    intros file Hfile. apply list_elem_of_In in Hfile.
    destruct Hfile as [<-|[<-|[]]]; reflexivity.
  - apply (proj2 (rendering_determined
                    Posix Win32 singleConfigFile {| title := None |})).
    vm_compute. reflexivity.
Defined.

End DeterminismClaims.

(** ** White space and [trim] *)

Section TrimFacts.
Import CommentSpec.
Local Arguments append : simpl nomatch.

(** The white space of [trim] and [\s] is the white space of ECMAScript
    among the code units below 256. *)
Lemma isWhiteSpace_isSpace (c : ascii) : isWhiteSpace c = isSpace c.
Proof. destruct c as [[] [] [] [] [] [] [] []]; vm_compute; reflexivity. Qed.

Lemma rev_app_eq (s t : string) :
  String.rev_app s t = String.rev s +:+ t.
Proof.
  unfold String.rev. revert t.
  induction s as [|c s IH]; intros t; [done|]. cbn [String.rev_app].
  rewrite (IH (String c t)), (IH (String c EmptyString)).
  by rewrite append_assoc.
Qed.

Lemma rev_cons (c : ascii) (s : string) :
  String.rev (String c s) = String.rev s +:+ String c EmptyString.
Proof. unfold String.rev at 1. cbn [String.rev_app]. apply rev_app_eq. Qed.

Lemma rev_append (a b : string) :
  String.rev (a +:+ b) = String.rev b +:+ String.rev a.
Proof.
  induction a as [|c a IH]; simpl.
  - by rewrite append_nil_r.
  - by rewrite !rev_cons, IH, append_assoc.
Qed.

Lemma rev_involutive (s : string) : String.rev (String.rev s) = s.
Proof.
  induction s as [|c s IH]; [done|].
  by rewrite rev_cons, rev_append, IH.
Qed.

Lemma allWhiteSpace_append (a b : string) :
  allWhiteSpace (a +:+ b) = allWhiteSpace a && allWhiteSpace b.
Proof.
  induction a as [|c a IH]; simpl; [done|]. by rewrite IH, andb_assoc.
Qed.

Lemma allWhiteSpace_rev (s : string) :
  allWhiteSpace (String.rev s) = allWhiteSpace s.
Proof.
  induction s as [|c s IH]; [done|].
  rewrite rev_cons, allWhiteSpace_append, IH. simpl.
  by rewrite andb_true_r, andb_comm.
Qed.

(** [trimStart] removes a prefix of white space and leaves a string that
    does not start with white space. *)
Lemma trimStart_spec (s : string) :
  (exists l, s = l +:+ trimStart s /\ allWhiteSpace l = true)
  /\ startsWithWhiteSpace (trimStart s) = false.
Proof.
  induction s as [|c s [(l & Hl & Hw) Hstart]]; simpl.
  - split; [by exists EmptyString|done].
  - destruct (isWhiteSpace c) eqn:Hc; rewrite isWhiteSpace_isSpace in Hc.
    + split; [|done]. exists (String c l). simpl. by rewrite Hc, Hw, <- Hl.
    + split; [by exists EmptyString|]. by simpl.
Qed.

Lemma trimEnd_spec (s : string) :
  (exists r, s = trimEnd s +:+ r /\ allWhiteSpace r = true)
  /\ endsWithWhiteSpace (trimEnd s) = false.
Proof.
  unfold trimEnd, endsWithWhiteSpace. rewrite rev_involutive.
  destruct (trimStart_spec (String.rev s)) as [(l & Hl & Hw) Hstart].
  split; [|done]. exists (String.rev l).
  rewrite allWhiteSpace_rev. split; [|done].
  rewrite <- rev_append, <- Hl. by rewrite rev_involutive.
Qed.

Lemma startsWithWhiteSpace_prefix (t r : string) :
  startsWithWhiteSpace (t +:+ r) = false -> startsWithWhiteSpace t = false.
Proof. by destruct t. Qed.

(** [trim] gives the string without its surrounding white space. *)
Lemma trim_spec (s : string) : trimmedOf s (trim s).
Proof.
  unfold trimmedOf, trim.
  destruct (trimStart_spec s) as [(l & Hl & Hlw) Hstart].
  destruct (trimEnd_spec (trimStart s)) as [(r & Hr & Hrw) Hend].
  split; [|split; [|done]].
  - exists l, r. by rewrite <- Hr.
  - apply (startsWithWhiteSpace_prefix _ r). by rewrite <- Hr.
Qed.

Lemma truthy_true (s : string) : truthy s = true <-> s <> EmptyString.
Proof. by destruct s. Qed.

Lemma trimStart_blank (s : string) :
  allWhiteSpace s = true -> trimStart s = EmptyString.
Proof.
  induction s as [|c s IH]; [done|]. simpl.
  intros [Hc Hs]%andb_true_iff. rewrite isWhiteSpace_isSpace, Hc. by apply IH.
Qed.

Lemma trimStart_empty (s : string) :
  trimStart s = EmptyString -> allWhiteSpace s = true.
Proof.
  induction s as [|c s IH]; [done|]. simpl.
  rewrite <- isWhiteSpace_isSpace. destruct (isWhiteSpace c); [exact IH|done].
Qed.

Lemma trimStart_skip (l x : string) :
  allWhiteSpace l = true -> trimStart (l +:+ x) = trimStart x.
Proof.
  induction l as [|c l IH]; [done|]. simpl.
  intros [Hc Hl]%andb_true_iff. rewrite isWhiteSpace_isSpace, Hc. by apply IH.
Qed.

Lemma trimStart_id (x : string) :
  startsWithWhiteSpace x = false -> trimStart x = x.
Proof.
  destruct x as [|c x]; [done|]. simpl. rewrite isWhiteSpace_isSpace.
  by intros ->.
Qed.

Lemma trimEnd_skip (t r : string) :
  allWhiteSpace r = true -> endsWithWhiteSpace t = false ->
  trimEnd (t +:+ r) = t.
Proof.
  intros Hr Ht. unfold trimEnd. rewrite rev_append.
  rewrite trimStart_skip by by rewrite allWhiteSpace_rev.
  rewrite trimStart_id by done. apply rev_involutive.
Qed.

(** A string has one trimmed form only, and [trim] returns it. *)
Lemma trimmedOf_unique (s t : string) : trimmedOf s t -> t = trim s.
Proof.
  intros [(l & r & -> & Hl & Hr) [Hstart Hend]]. unfold trim.
  rewrite trimStart_skip by done.
  destruct t as [|c t].
  - change (EmptyString +:+ r) with r. by rewrite trimStart_blank.
  - rewrite trimStart_id by done. symmetry. by apply trimEnd_skip.
Qed.

(** [trim] returns the empty string exactly on the strings made of white
    space only. *)
Lemma trim_blank (s : string) :
  trim s = EmptyString <-> allWhiteSpace s = true.
Proof.
  split.
  - intros Hs. destruct (trim_spec s) as [(l & r & Heq & Hl & Hr) _].
    rewrite Hs in Heq. rewrite Heq, allWhiteSpace_append, Hl. exact Hr.
  - intros Hs. unfold trim. by rewrite trimStart_blank.
Qed.

Lemma replaceLeadingDash_cons (c : ascii) (s : string) :
  replaceLeadingDash (String c s)
  = if Ascii.eqb c "-" then trimStart s else String c s.
Proof. destruct c as [[] [] [] [] [] [] [] []]; reflexivity. Qed.

(** The replacement of [/^-\s*/] removes a leading dash and all the white
    space after it, and nothing else. *)
Lemma replaceLeadingDash_spec (t : string) :
  withoutLeadingDash t (replaceLeadingDash t).
Proof.
  destruct t as [|c t]; [right; by split|]. rewrite replaceLeadingDash_cons.
  destruct (Ascii.eqb_spec c "-") as [->|Hc].
  - left. destruct (trimStart_spec t) as [(ws & Hws & Hw) Hstart].
    exists ws. by rewrite <- Hws.
  - right. split; [|done]. by intros rest [= ? _].
Qed.

(** What the code stores for a comment text is the trimmed text without
    its leading dash. *)
Lemma storedFor_code (text : string) :
  storedFor text (replaceLeadingDash (trim text)).
Proof.
  exists (trim text). split; [apply trim_spec|apply replaceLeadingDash_spec].
Qed.

Lemma withoutLeadingDash_unique (t d : string) :
  withoutLeadingDash t d -> d = replaceLeadingDash t.
Proof.
  intros [(ws & -> & Hws & Hd)|[Hnodash ->]].
  - rewrite replaceLeadingDash_cons. cbn [Ascii.eqb Bool.eqb].
    by rewrite trimStart_skip, trimStart_id.
  - destruct t as [|c t]; [done|]. rewrite replaceLeadingDash_cons.
    destruct (Ascii.eqb_spec c "-") as [->|_]; [|done].
    by destruct (Hnodash t).
Qed.

(** The stored description is determined by the comment text. *)
Lemma storedFor_unique (text d : string) :
  storedFor text d <-> d = replaceLeadingDash (trim text).
Proof.
  split.
  - intros (t & Ht%trimmedOf_unique & Hd%withoutLeadingDash_unique).
    by subst t.
  - intros ->. apply storedFor_code.
Qed.


Lemma storedFor_starts (text d : string) :
  storedFor text d -> startsWithWhiteSpace d = false.
Proof.
  intros (t & (_ & Hs & _) & [(ws & _ & _ & Hd)|[_ ->]]); done.
Qed.

End TrimFacts.

(** ** Claims on the comment resolver *)

Section CommentClaims.
Import Parser CommentSpec Samples.




Lemma recordParamTag_entryOf (m : gmap string string) (tag : JSDocTag) :
  recordParamTag m tag
  = match entryOf tag with
    | Some (n, d) => <[n := d]> m
    | None => m
    end.
Proof.
  unfold recordParamTag, entryOf.
  destruct (String.eqb (tag_getTagName tag) "param"
            && tag_isJSDocParameterTag tag); [|done].
  destruct (tag_getCommentText tag) as [text|]; [|done]. cbn [fmap option_fmap option_map].
  by destruct (truthy (tag_getName tag)
               && negb (includesChar "." (tag_getName tag))
               && truthy (trim text)).
Qed.

Lemma last_cons_eq {A : Type} (x : A) (l : list A) :
  last (x :: l) = match last l with Some y => Some y | None => Some x end.
Proof.
  destruct l as [|y l]; [done|].
  change (last (x :: y :: l)) with (last (y :: l)).
  destruct (last (y :: l)) eqn:E; [done|]. by apply last_None in E.
Qed.

(** The loop over the tags from any mapping: the last recorded tag of a
    name decides its entry. *)
Lemma foldl_recordParamTag (tags : list JSDocTag) (m : gmap string string)
      (name : string) :
  foldl recordParamTag m tags !! name
  = match last (omap (descriptionFor name) tags) with
    | Some d => Some d
    | None => m !! name
    end.
Proof.
  revert m. induction tags as [|tag tags IH]; intros m; [done|].
  cbn [foldl omap list_omap]. rewrite IH, recordParamTag_entryOf.
  unfold descriptionFor at 2.
  destruct (entryOf tag) as [[n d]|].
  - destruct (decide (n = name)) as [->|Hne].
    + rewrite last_cons_eq, lookup_insert_eq.
      by destruct (last (omap (descriptionFor name) tags)).
    + by rewrite lookup_insert_ne.
  - done.
Qed.

Lemma truthy_trim (text : string) :
  truthy (trim text) = negb (allWhiteSpace text).
Proof.
  destruct (allWhiteSpace text) eqn:Hblank.
  - apply trim_blank in Hblank. by rewrite Hblank.
  - apply truthy_true. intros Hs%trim_blank. congruence.
Qed.

Lemma entryOf_recorded (tag : JSDocTag) (n d : string) :
  entryOf tag = Some (n, d)
  <-> exists text, recorded tag text /\ n = tag_getName tag
                   /\ d = replaceLeadingDash (trim text).
Proof.
  unfold entryOf, recorded. split.
  - destruct (String.eqb (tag_getTagName tag) "param") eqn:Hname; [|done].
    destruct (tag_isJSDocParameterTag tag); [|done]. cbn [andb].
    destruct (tag_getCommentText tag) as [text|]; [|done].
    destruct (truthy (tag_getName tag)) eqn:Hn; [|done].
    destruct (includesChar "." (tag_getName tag)); [done|].
    rewrite truthy_trim.
    destruct (allWhiteSpace text) eqn:Ht; [done|]. cbn [andb negb].
    intros [= <- <-]. exists text.
    apply String.eqb_eq in Hname. apply truthy_true in Hn. done.
  - intros (text & (Hname & -> & Hn & -> & -> & Ht) & -> & ->).
    rewrite Hname, truthy_trim, Ht. apply truthy_true in Hn. by rewrite Hn.
Qed.


(** The element that decides the last value of [omap], and what follows
    it. *)
Lemma last_omap_split {A B : Type} (g : A -> option B) (l : list A) (d : B) :
  last (omap g l) = Some d ->
  exists before x after,
    l = before ++ x :: after /\ g x = Some d
    /\ forall y, y ∈ after -> g y = None.
Proof.
  induction l as [|x l IH]; [done|].
  cbn [omap list_omap]. destruct (g x) as [b|] eqn:Hx.
  - rewrite last_cons_eq.
    destruct (last (omap g l)) as [d'|] eqn:Hlast.
    + intros [= ->]. destruct (IH eq_refl) as (before & y & after & -> & Hy & Hafter).
      by exists (x :: before), y, after.
    + intros [= ->]. exists [], x, l. split; [done|]. split; [done|].
      intros y Hy. destruct (g y) as [b'|] eqn:Hgy; [|done].
      assert (b' ∈ omap g l) as Hin by (apply list_elem_of_omap; eauto).
      apply last_None in Hlast. rewrite Hlast in Hin.
      by apply elem_of_nil in Hin.
  - intros Hlast. destruct (IH Hlast) as (before & y & after & -> & Hy & Hafter).
    by exists (x :: before), y, after.
Qed.

Lemma last_omap_is_Some {A B : Type} (g : A -> option B) (l : list A) (x : A) :
  x ∈ l -> is_Some (g x) -> is_Some (last (omap g l)).
Proof.
  intros Hx [d Hd].
  assert (d ∈ omap g l) as Hin by (apply list_elem_of_omap; eauto).
  destruct (omap g l) as [|y l'] eqn:E; [by apply elem_of_nil in Hin|].
  rewrite last_cons_eq. by destruct (last l').
Qed.

Lemma descriptionFor_Some (name : string) (tag : JSDocTag) (d : string) :
  descriptionFor name tag = Some d
  <-> tag_getName tag = name
      /\ exists text, recorded tag text /\ d = replaceLeadingDash (trim text).
Proof.
  unfold descriptionFor. split.
  - destruct (entryOf tag) as [[n d']|] eqn:Hentry; [|done].
    destruct (decide (n = name)) as [->|]; [|done]. intros [= ->].
    apply entryOf_recorded in Hentry as (text & Hrec & -> & ->).
    split; [done|]. by exists text.
  - intros (<- & text & Hrec & ->).
    assert (entryOf tag
            = Some (tag_getName tag, replaceLeadingDash (trim text))) as ->.
    { apply entryOf_recorded. by exists text. }
    by rewrite decide_True.
Qed.

Lemma descriptionFor_None (name : string) (tag : JSDocTag) :
  descriptionFor name tag = None ->
  tag_getName tag = name -> forall text, ~ recorded tag text.
Proof.
  intros Hnone Hname text Hrec.
  assert (descriptionFor name tag = Some (replaceLeadingDash (trim text)))
    as Hsome by (apply descriptionFor_Some; split; [done|by exists text]).
  congruence.
Qed.

(** C9, as stated, fails: for [@param x -y] the stored description is
    [y], while the trimmed comment text with a leading dash-and-space
    stripped is [-y]; and [@param z] with a comment text of one space,
    which is not empty, gets no entry. *)
Lemma dash_without_space_is_stripped :
  extractParamDescriptions [dashWithoutSpace] !! "x" = Some "y"
  /\ stripDashSpace (trim "-y") = "-y"
  /\ extractParamDescriptions [dashWithoutSpace] !! "x"
     <> Some (stripDashSpace (trim "-y"))
  /\ extractParamDescriptions [dashWithoutSpace] !! "z" = None.
Proof.
  split; [vm_compute; reflexivity|]. split; [reflexivity|].
  split; [|vm_compute; reflexivity].
  replace (extractParamDescriptions [dashWithoutSpace] !! "x")
    with (Some "y") by (vm_compute; reflexivity).
  discriminate.
Qed.

(** C9, amended: the parameter-description mapping built from the last
    documentation block has an entry exactly for each name carried by a
    parameter tag whose declared name is non-empty and has no dot and
    whose comment text is not made of white space only; the stored
    description is the trimmed comment text without a leading dash and
    the white space that follows it, taken from the last such tag of that
    name; dotted names and tags without comment text produce no entry. *)
Theorem param_descriptions_mapping (earlier : list JSDoc) (lastDoc : JSDoc)
        (name : string) :
  let descriptions := extractParamDescriptions (earlier ++ [lastDoc]) in
  descriptions = extractParamDescriptions [lastDoc]
  /\ (is_Some (descriptions !! name)
      <-> exists tag text,
          tag ∈ doc_getTags lastDoc /\ tag_getName tag = name
          /\ recorded tag text)
  /\ (forall d,
        descriptions !! name = Some d ->
        exists before tag after text,
          doc_getTags lastDoc = before ++ tag :: after
          /\ tag_getName tag = name
          /\ recorded tag text /\ storedFor text d
          /\ (forall later text',
                later ∈ after -> tag_getName later = name ->
                ~ recorded later text'))
  /\ (forall d c rest,
        descriptions !! name = Some d ->
        nat_of_ascii c ∈ [9; 10; 11; 12; 13; 32; 160] ->
        d <> String c rest)
  /\ (includesChar "." name = true -> descriptions !! name = None)
  /\ ((forall tag,
          tag ∈ doc_getTags lastDoc -> tag_getName tag = name ->
          tag_getCommentText tag = None) ->
      descriptions !! name = None).
Proof.
  intros descriptions. subst descriptions. unfold extractParamDescriptions.
  rewrite last_snoc. cbn [last].
  assert (forall d,
             foldl recordParamTag ∅ (doc_getTags lastDoc) !! name = Some d ->
             exists before tag after text,
               doc_getTags lastDoc = before ++ tag :: after
               /\ tag_getName tag = name
               /\ recorded tag text /\ storedFor text d
               /\ (forall later text',
                     later ∈ after -> tag_getName later = name ->
                     ~ recorded later text'))
    as Hsome.
  { intros d. rewrite foldl_recordParamTag, lookup_empty.
    destruct (last (omap (descriptionFor name) (doc_getTags lastDoc)))
      as [d'|] eqn:Hlast; [|done].
    intros [= ->].
    apply last_omap_split in Hlast
      as (before & tag & after & Htags & Hd & Hafter).
    apply descriptionFor_Some in Hd as (Hname & text & Hrec & ->).
    exists before, tag, after, text.
    split; [done|]. split; [done|]. split; [done|].
    split; [apply storedFor_code|].
    intros later text' Hlater Hn.
    apply (descriptionFor_None name later); [by apply Hafter|done]. }
  assert (is_Some (foldl recordParamTag ∅ (doc_getTags lastDoc) !! name)
          <-> exists tag text,
              tag ∈ doc_getTags lastDoc /\ tag_getName tag = name
              /\ recorded tag text) as Hiff.
  { split.
    - intros [d Hd].
      destruct (Hsome d Hd) as (before & tag & after & text & Ht & ? & ? & _).
      exists tag, text. split; [|done]. rewrite Ht. set_solver.
    - intros (tag & text & Htag & <- & Hrec).
      rewrite foldl_recordParamTag, lookup_empty.
      assert (is_Some (last (omap (descriptionFor (tag_getName tag))
                                  (doc_getTags lastDoc)))) as [d ->]; [|done].
      apply (last_omap_is_Some _ _ tag Htag).
      exists (replaceLeadingDash (trim text)).
      apply descriptionFor_Some. split; [done|]. by exists text. }
  split; [done|]. split; [exact Hiff|]. split; [exact Hsome|].
  split; [|split].
  - intros d c rest Hd Hc ->.
    destruct (Hsome _ Hd) as (_ & _ & _ & text & _ & _ & _ & Hst & _).
    apply storedFor_starts in Hst. cbn [startsWithWhiteSpace] in Hst.
    unfold isSpace in Hst. by rewrite (bool_decide_eq_true_2 _ Hc) in Hst.
  - intros Hdot.
    destruct (foldl recordParamTag ∅ (doc_getTags lastDoc) !! name)
      as [d|] eqn:Hd; [|done].
    destruct (Hsome d eq_refl) as (_ & tag & _ & text & _ & <- & Hrec & _).
    destruct Hrec as (_ & _ & _ & Hnodot & _). congruence.
  - intros Hnone.
    destruct (foldl recordParamTag ∅ (doc_getTags lastDoc) !! name)
      as [d|] eqn:Hd; [|done].
    destruct (proj1 Hiff (ltac:(eauto))) as (tag & text & Htag & Hname & Hrec).
    destruct Hrec as (_ & _ & _ & _ & Htext & _).
    rewrite (Hnone tag Htag Hname) in Htext. done.
Qed.

Lemma param_descriptions_mapping_witness :
  is_Some (extractParamDescriptions ([bannerBlock] ++ [declarationBlock])
             !! "x")
  /\ extractParamDescriptions ([bannerBlock] ++ [declarationBlock])
       !! "input.authority" = None.
Proof.
  split.
  - apply (proj1 (proj2 (param_descriptions_mapping
                           [bannerBlock] declarationBlock "x"))).
    exists {| tag_getTagName := "param"; tag_isJSDocParameterTag := true;
              tag_getName := "x"; tag_getCommentText := Some "- count" |},
      "- count".
    split; [apply list_elem_of_here|]. split; [reflexivity|].
    repeat split; try reflexivity; discriminate.
  - destruct (param_descriptions_mapping [bannerBlock] declarationBlock
                                         "input.authority")
      as (_ & _ & _ & _ & Hdot & _).
    apply Hdot. reflexivity.
Defined.

End CommentClaims.

(** ** Claims on the command-line driver *)

Section DriverClaims.
Import Cli CliSpec Notions Samples.

Lemma isNil_nil {A : Type} (l : list A) : isNil l = true <-> l = [].
Proof. by destruct l. Qed.

Lemma length_pos_nil {A : Type} (l : list A) :
  (0 <? length l)%nat = negb (isNil l).
Proof. by destruct l. Qed.

Lemma hasExportedTypes_isNil (parsed : ParsedFile) :
  hasExportedTypes parsed
  = negb (isNil (interfaces parsed) && isNil (typeAliases parsed)
          && isNil (functions parsed)).
Proof.
  unfold hasExportedTypes. rewrite !length_pos_nil.
  by destruct (isNil (interfaces parsed)), (isNil (typeAliases parsed)),
       (isNil (functions parsed)).
Qed.

Lemma isNil_holdsNothing (parsed : ParsedFile) :
  isNil (interfaces parsed) && isNil (typeAliases parsed)
  && isNil (functions parsed) = true
  <-> holdsNothing parsed.
Proof.
  unfold holdsNothing. rewrite !andb_true_iff, !isNil_nil. tauto.
Qed.

Lemma contribution_Some loader (file : string) (parsed : ParsedFile) :
  contribution loader file = Some parsed
  <-> Parser.parseFile loader file = Return parsed /\ ~ holdsNothing parsed.
Proof.
  unfold contribution.
  destruct (Parser.parseFile loader file) as [p|message].
  - pose proof (isNil_holdsNothing p) as Hp.
    destruct (isNil (interfaces p) && isNil (typeAliases p)
              && isNil (functions p)).
    + split; [done|]. intros [[= <-] Hn]. destruct Hn. by apply Hp.
    + split.
      * intros [= <-]. split; [done|]. intros Hn%Hp. done.
      * by intros [[= <-] _].
  - split; [done|]. by intros [? _].
Qed.

Lemma contribution_None loader (file : string) :
  contribution loader file = None <-> ~ contributes loader file.
Proof.
  unfold contributes. split.
  - intros Hnone (parsed & Hparsed). apply contribution_Some in Hparsed.
    congruence.
  - intros Hno. destruct (contribution loader file) as [parsed|] eqn:Hc;
      [|done].
    destruct Hno. exists parsed. by apply contribution_Some.
Qed.


Lemma totalOf_app {T : Type} (proj : ParsedFile -> list T)
      (l1 l2 : list ParsedFile) :
  totalOf proj (l1 ++ l2) = totalOf proj l1 + totalOf proj l2.
Proof.
  unfold totalOf. induction l1 as [|p l1 IH]; simpl in *; lia.
Qed.

Lemma parseStep_eq loader (st : LoopState) (file : string) :
  parsedFiles (parseStep loader st file)
  = parsedFiles st ++ option_list (contribution loader file)
  /\ stderr (parseStep loader st file)
     = stderr st ++ option_list (warning loader file).
Proof.
  unfold parseStep, contribution, warning.
  destruct (Parser.parseFile loader file) as [parsed|message].
  - rewrite hasExportedTypes_isNil.
    destruct (isNil (interfaces parsed) && isNil (typeAliases parsed)
              && isNil (functions parsed)); cbn; by rewrite !app_nil_r.
  - cbn. by rewrite app_nil_r.
Qed.

Lemma parseStep_totals loader (st : LoopState) (file : string) :
  totalInterfaces (parseStep loader st file)
  = totalInterfaces st
    + totalOf interfaces (option_list (contribution loader file))
  /\ totalTypes (parseStep loader st file)
     = totalTypes st
       + totalOf typeAliases (option_list (contribution loader file))
  /\ totalFunctions (parseStep loader st file)
     = totalFunctions st
       + totalOf functions (option_list (contribution loader file)).
Proof.
  unfold parseStep, contribution, totalOf.
  destruct (Parser.parseFile loader file) as [parsed|message].
  - rewrite hasExportedTypes_isNil.
    destruct (isNil (interfaces parsed) && isNil (typeAliases parsed)
              && isNil (functions parsed)); simpl; lia.
  - simpl; lia.
Qed.

Lemma omap_cons_option_list {A B : Type} (g : A -> option B) (x : A)
      (l : list A) :
  omap g (x :: l) = option_list (g x) ++ omap g l.
Proof. cbn. by destruct (g x). Qed.

(** The parsing loop from any state: the files that contribute are added
    in order, and one warning is written for each file that fails. *)
Lemma parseAll_eq loader (files : list string) (st : LoopState) :
  parsedFiles (parseAll loader st files)
  = parsedFiles st ++ omap (contribution loader) files
  /\ stderr (parseAll loader st files)
     = stderr st ++ omap (warning loader) files.
Proof.
  unfold parseAll. revert st.
  induction files as [|file files IH]; intros st.
  - cbn. by rewrite !app_nil_r.
  - cbn [foldl]. destruct (IH (parseStep loader st file)) as [-> ->].
    destruct (parseStep_eq loader st file) as [-> ->].
    by rewrite !omap_cons_option_list, <- !app_assoc.
Qed.

Lemma parseAll_totals loader (files : list string) (st : LoopState) :
  totalInterfaces (parseAll loader st files)
  = totalInterfaces st + totalOf interfaces (omap (contribution loader) files)
  /\ totalTypes (parseAll loader st files)
     = totalTypes st + totalOf typeAliases (omap (contribution loader) files)
  /\ totalFunctions (parseAll loader st files)
     = totalFunctions st + totalOf functions (omap (contribution loader) files).
Proof.
  unfold parseAll. revert st.
  induction files as [|file files IH]; intros st.
  - unfold totalOf. simpl. lia.
  - cbn [foldl]. destruct (IH (parseStep loader st file)) as (-> & -> & ->).
    destruct (parseStep_totals loader st file) as (-> & -> & ->).
    rewrite !omap_cons_option_list, !totalOf_app. lia.
Qed.

(** [run] once the search has returned a non-empty list of files. *)
Lemma run_eq glob loader write host pattern (files : list string)
      (options : CliOptions) :
  glob pattern (exclude options) = Return files ->
  files <> [] ->
  run glob loader write host pattern options
  = let kept := omap (contribution loader) files in
    let found :=
      ("Found " +:+ pretty (length files) +:+ " file(s)")
        :: omap (warning loader) files in
    let markdown :=
      Generator.generateMarkdown host kept
                                 {| title := Some (cli_title options) |} in
    match kept with
    | [] => (found, Failed NoExportedTypes)
    | _ :: _ =>
        match target options with
        | Some file =>
            match write file markdown with
            | Return _ =>
                (found ++ [summaryLine kept;
                           "Wrote documentation to " +:+ file],
                 Succeeded {| emitted_to := Some file;
                              emitted_markdown := markdown |})
            | Throw message =>
                (found ++ [summaryLine kept], Failed (WriteFailed message))
            end
        | None =>
            (found ++ [summaryLine kept],
             Succeeded {| emitted_to := None; emitted_markdown := markdown |})
        end
    end.
Proof.
  intros Hglob Hne. unfold run. rewrite Hglob.
  destruct files as [|file files]; [done|]. cbv zeta.
  destruct (parseAll_eq loader (file :: files) (initialState (file :: files)))
    as [Hparsed Hlog].
  destruct (parseAll_totals loader (file :: files)
                            (initialState (file :: files)))
    as (Hi & Ht & Hf).
  cbn [initialState parsedFiles stderr totalInterfaces totalTypes
       totalFunctions app Nat.add] in Hparsed, Hlog, Hi, Ht, Hf.
  rewrite Hparsed, Hlog, Hi, Ht, Hf.
  destruct (omap (contribution loader) (file :: files)) as [|p ps]; [done|].
  unfold target, summaryLine.
  destruct (output options) as [out|]; [destruct (truthy out)|];
    [|reflexivity..].
  destruct (write out _); [|reflexivity].
  cbn [app]. by rewrite <- app_assoc.
Qed.

Lemma run_no_file glob loader write host pattern (options : CliOptions) :
  glob pattern (exclude options) = Return [] ->
  run glob loader write host pattern options
  = ([], Failed (NoFilesFound pattern)).
Proof. intros Hglob. unfold run. by rewrite Hglob. Qed.

Lemma omap_nil_iff {A B : Type} (g : A -> option B) (l : list A) :
  omap g l = [] <-> forall x, x ∈ l -> g x = None.
Proof.
  induction l as [|x l IH].
  - split; [by intros _ x ?%elem_of_nil|done].
  - rewrite omap_cons_option_list. split.
    + intros [Hx Hl]%app_eq_nil x' [Heq|Hin]%elem_of_cons.
      * subst x'. by destruct (g x).
      * by apply IH.
    + intros Hall. rewrite (Hall x) by set_solver. cbn.
      apply IH. intros x' Hx'. apply Hall. set_solver.
Qed.

Lemma kept_nil_iff loader (files : list string) :
  omap (contribution loader) files = []
  <-> forall file, file ∈ files -> ~ contributes loader file.
Proof.
  rewrite omap_nil_iff. split; intros Hall file Hfile;
    apply contribution_None; by apply Hall.
Qed.

Lemma kept_elem loader (files : list string) (parsed : ParsedFile) :
  parsed ∈ omap (contribution loader) files
  <-> exists file,
      file ∈ files /\ Parser.parseFile loader file = Return parsed
      /\ ~ holdsNothing parsed.
Proof.
  rewrite list_elem_of_omap. split.
  - intros (file & Hfile & Hc). exists file. split; [done|].
    by apply contribution_Some.
  - intros (file & Hfile & Hc). exists file. split; [done|].
    by apply contribution_Some.
Qed.

Lemma parseFile_filePath loader (file : string) (parsed : ParsedFile) :
  Parser.parseFile loader file = Return parsed -> filePath parsed = file.
Proof.
  unfold Parser.parseFile. destruct (loader file); [|done].
  by intros [= <-].
Qed.

(** C6, as stated, fails: the file [ok.ts] contributes an interface, yet
    the run fails with a terminal error, because the output file cannot be
    written. *)
Lemma unwritable_output_fails :
  contributes sampleProject "ok.ts"
  /\ snd (run (matching ["ok.ts"]) sampleProject readOnly Posix "*.ts"
              sampleOptionsToFile)
     = Failed (WriteFailed "EACCES: permission denied, open 'out.md'").
Proof.
  split; [|vm_compute; reflexivity].
  exists (Parser.parseSourceFile "ok.ts" exportedConfig).
  split; [reflexivity|]. intros (Hi & _). vm_compute in Hi. discriminate Hi.
Qed.

(** C6, amended: extraction of one file never aborts the whole run.  A
    file that cannot be parsed is left out of the merged result and
    reported as a warning; the document is rendered from the files that
    contribute, in order.  Once the search for the files has returned, the
    run fails with a terminal error exactly when no file contributed an
    interface, a type alias or a function (no file matched included), or
    when the document cannot be written to the output file; it also fails
    when the search itself fails. *)
Theorem bad_file_never_aborts glob loader write host pattern
        (options : CliOptions) :
  let result := run glob loader write host pattern options in
  (forall message,
      glob pattern (exclude options) = Throw message ->
      result = ([], Failed (GlobRejected message)))
  /\ (forall files,
        glob pattern (exclude options) = Return files ->
        let kept := omap (contribution loader) files in
        let markdown :=
          Generator.generateMarkdown
            host kept {| title := Some (cli_title options) |} in
        (forall parsed,
            parsed ∈ kept
            <-> exists file,
                file ∈ files
                /\ Parser.parseFile loader file = Return parsed
                /\ ~ holdsNothing parsed)
        /\ ((exists error, snd result = Failed error)
            <-> (forall file, file ∈ files -> ~ contributes loader file)
                \/ unwritable write options markdown)
        /\ (forall file message,
              file ∈ files -> loader file = Throw message ->
              ("Warning: Failed to parse " +:+ file +:+ ": " +:+ message)
                ∈ fst result
              /\ ~ contributes loader file
              /\ forall parsed, parsed ∈ kept -> filePath parsed <> file)
        /\ (forall emitted,
              snd result = Succeeded emitted ->
              emitted_markdown emitted = markdown
              /\ emitted_to emitted = target options)
        /\ (forall file,
              file ∈ files -> contributes loader file ->
              ~ unwritable write options markdown ->
              exists emitted, snd result = Succeeded emitted)
        /\ (files = [] -> snd result = Failed (NoFilesFound pattern))
        /\ (files <> [] ->
            (forall file, file ∈ files -> ~ contributes loader file) ->
            snd result = Failed NoExportedTypes)
        /\ (forall file out message,
              file ∈ files -> contributes loader file ->
              target options = Some out ->
              write out markdown = Throw message ->
              snd result = Failed (WriteFailed message))).
Proof.
  intros result. subst result. split.
  { intros message Hglob. unfold run. by rewrite Hglob. }
  intros files Hglob kept markdown.
  split; [intros parsed; apply kept_elem|].
  assert (forall file message,
             file ∈ files -> loader file = Throw message ->
             ~ contributes loader file) as Hbad.
  { intros file message _ Hthrow (parsed & Hparsed & _).
    unfold Parser.parseFile in Hparsed. by rewrite Hthrow in Hparsed. }
  destruct files as [|file0 files].
  { rewrite (run_no_file _ _ _ _ _ _ Hglob). cbn [fst snd].
    split; [|split; [|split; [|split; [|split; [|split]]]]].
    - split; [|eauto]. intros _. left. by intros file ?%elem_of_nil.
    - by intros file message ?%elem_of_nil.
    - done.
    - by intros file ?%elem_of_nil.
    - done.
    - done.
    - by intros file out message ?%elem_of_nil. }
  rewrite (run_eq _ _ _ _ _ _ _ Hglob) by done. cbv zeta.
  fold kept. fold markdown.
  pose proof (kept_nil_iff loader (file0 :: files)) as Hnil. fold kept in Hnil.
  unfold unwritable.
  split; [|split; [|split; [|split; [|split; [|split]]]]].
  - destruct kept as [|p ps] eqn:Hkept.
    + split; [|eauto]. intros _. left. by apply Hnil.
    + destruct (target options) as [out|];
        [destruct (write out markdown) as [u|message] eqn:Hwrite|];
        cbn [snd].
      * split; [by intros [error ?]|].
        intros [Hall|(out' & m & [= <-] & Hthrow)]; [|congruence].
        by apply Hnil in Hall.
      * split; [|eauto]. intros _. right. by exists out, message.
      * split; [by intros [error ?]|].
        intros [Hall|(out' & m & ? & _)]; [|done].
        by apply Hnil in Hall.
  - intros file message Hfile Hthrow.
    assert (warning loader file
            = Some ("Warning: Failed to parse " +:+ file +:+ ": " +:+ message))
      as Hwarn by (unfold warning, Parser.parseFile; by rewrite Hthrow).
    assert (("Warning: Failed to parse " +:+ file +:+ ": " +:+ message)
              ∈ omap (warning loader) (file0 :: files)) as Hin
        by (apply list_elem_of_omap; eauto).
    split; [|split; [by apply (Hbad file message)|]].
    + destruct kept as [|p ps]; [cbn [fst]; set_solver|].
      destruct (target options) as [out|];
        [destruct (write out markdown)|]; cbn [fst]; set_solver.
    + intros parsed (file' & _ & Hparsed & _)%kept_elem Hpath.
      rewrite (parseFile_filePath _ _ _ Hparsed) in Hpath. subst file'.
      unfold Parser.parseFile in Hparsed. by rewrite Hthrow in Hparsed.
  - intros emitted. destruct kept as [|p ps]; [done|].
    destruct (target options) as [out|];
      [destruct (write out markdown)|]; cbn [snd]; [|done|];
      by intros [= <-].
  - intros file Hfile Hc Hw.
    destruct kept as [|p ps]; [by destruct (proj1 Hnil eq_refl file Hfile)|].
    destruct (target options) as [out|];
      [destruct (write out markdown) as [u|message] eqn:Hwrite|];
      cbn [snd]; [eauto| |eauto].
    destruct Hw. by exists out, message.
  - done.
  - intros _ Hall. apply Hnil in Hall. by rewrite Hall.
  - intros file out message Hfile Hc -> Hwrite.
    destruct kept as [|p ps]; [by destruct (proj1 Hnil eq_refl file Hfile)|].
    by rewrite Hwrite.
Qed.

Lemma bad_file_never_aborts_witness :
  "Warning: Failed to parse broken.ts: File not found: broken.ts"
    ∈ fst (run (matching ["broken.ts"; "ok.ts"]) sampleProject writable
               Posix "*.ts" sampleOptions)
  /\ (exists emitted,
         snd (run (matching ["broken.ts"; "ok.ts"]) sampleProject writable
                  Posix "*.ts" sampleOptions)
         = Succeeded emitted)
  /\ snd (run (matching ["broken.ts"; "ok.ts"]) sampleProject readOnly
              Posix "*.ts" sampleOptionsToFile)
     = Failed (WriteFailed "EACCES: permission denied, open 'out.md'").
Proof.
  assert (contributes sampleProject "ok.ts") as Hok.
  { exists (Parser.parseSourceFile "ok.ts" exportedConfig).
    split; [reflexivity|]. intros (Hi & _). vm_compute in Hi.
    discriminate Hi. }
  split; [|split].
  - destruct (proj2 (bad_file_never_aborts
                       (matching ["broken.ts"; "ok.ts"]) sampleProject
                       writable Posix "*.ts" sampleOptions)
                    ["broken.ts"; "ok.ts"] eq_refl)
      as (_ & _ & Hwarn & _).
    apply (Hwarn "broken.ts" "File not found: broken.ts");
      [apply list_elem_of_here|reflexivity].
  - destruct (proj2 (bad_file_never_aborts
                       (matching ["broken.ts"; "ok.ts"]) sampleProject
                       writable Posix "*.ts" sampleOptions)
                    ["broken.ts"; "ok.ts"] eq_refl)
      as (_ & _ & _ & _ & Hrun & _).
    apply (Hrun "ok.ts");
      [apply list_elem_of_further, list_elem_of_here|exact Hok|].
    intros (file & message & Htarget & _). discriminate Htarget.
  - destruct (proj2 (bad_file_never_aborts
                       (matching ["broken.ts"; "ok.ts"]) sampleProject
                       readOnly Posix "*.ts" sampleOptionsToFile)
                    ["broken.ts"; "ok.ts"] eq_refl)
      as (_ & _ & _ & _ & _ & _ & _ & Hwrite).
    apply (Hwrite "ok.ts" "out.md");
      [apply list_elem_of_further, list_elem_of_here|exact Hok
      |reflexivity|reflexivity].
Defined.




End DriverClaims.

(** ** Worked examples of the specification *)

Section WorkedExamples.
Import Parser Generator Samples.

(** An exported [interface Foo { bar?: string }] yields one optional
    property and renders the row [| bar | `string` |  |  |]. *)
Example optional_property_row :
  interfaces (parseSourceFile "foo.ts" exportedFoo)
  = [{| iface_name := "Foo"; iface_description := None;
        iface_properties :=
          [{| prop_name := "bar"; prop_type := "string";
              prop_required := false; prop_description := None |}];
        iface_extends := None |}]
  /\ generateMarkdownLines Posix [parseSourceFile "foo.ts" exportedFoo]
                           {| title := None |}
     = ["# API Reference"; EmptyString;
        "## Table of Contents"; EmptyString;
        "### Interfaces"; EmptyString; "- [Foo](#foo)"; EmptyString;
        "---"; EmptyString;
        "## Foo"; EmptyString;
        "| Property | Type | Required | Description |";
        "|----------|------|----------|-------------|";
        "| bar | `string` |  |  |";
        EmptyString; "---"; EmptyString].
Proof. split; vm_compute; reflexivity. Qed.

(** The documented async arrow binding [f] yields the function record of
    the specification and the signature block
    [async function f(x: number): Promise<void>]. *)
Example async_arrow_signature :
  functions (parseSourceFile "f.ts" exportedAsyncArrow)
  = [{| fn_name := "f"; fn_description := None;
        fn_parameters :=
          [{| param_name := "x"; param_type := "number";
              param_required := true; param_description := Some "count" |}];
        fn_returnType := "Promise<void>"; fn_isAsync := true |}]
  /\ "async function f(x: number): Promise<void>"
       ∈ generateMarkdownLines Posix [parseSourceFile "f.ts" exportedAsyncArrow]
                               {| title := None |}.
Proof.
  split; [vm_compute; reflexivity|].
  apply (bool_decide_eq_true_1 _). vm_compute. reflexivity.
Qed.

(** [path.basename] under the two conventions. *)
Example basename_conventions :
  Path.basename Posix "/home/me/src/a.ts" = "a.ts"
  /\ Path.basename Posix "/home/me/src/" = "src"
  /\ Path.basename Win32 "C:\temp\a.ts" = "a.ts"
  /\ Path.basename Posix "C:\temp\a.ts" = "C:\temp\a.ts"
  /\ Path.basename Win32 "C:a.ts" = "a.ts".
Proof. repeat split; vm_compute; reflexivity. Qed.

End WorkedExamples.

(** * Further properties of the code *)

(** ** The declaration extractor *)

Section ExtractorProperties.
Import Parser SourceOrder CommentSpec Notions Samples.

(** X2: The interfaces and the type aliases of a [ParsedFile] are exactly the
    records of the exported declarations of the file, as many as there are
    exported declarations. *)
Theorem exported_declarations_extracted (path : string) (sf : SourceFile) :
  (forall x,
      x ∈ interfaces (parseSourceFile path sf)
      <-> exists iface, InterfaceStatement iface ∈ sf
                        /\ id_isExported iface = true
                        /\ x = interfaceRecord iface)
  /\ (forall x,
        x ∈ typeAliases (parseSourceFile path sf)
        <-> exists alias, TypeAliasStatement alias ∈ sf
                          /\ ta_isExported alias = true
                          /\ x = typeAliasRecord alias)
  /\ length (interfaces (parseSourceFile path sf))
     = length (filter (fun iface => id_isExported iface = true)
                      (getInterfaces sf))
  /\ length (typeAliases (parseSourceFile path sf))
     = length (filter (fun alias => ta_isExported alias = true)
                      (getTypeAliases sf)).
Proof.
  cbn [parseSourceFile interfaces typeAliases].
  split; [|split; [|split]].
  - intros x. rewrite parseInterfaces_source_order.
    unfold interfacesInSourceOrder. rewrite list_elem_of_In, in_flat_map. split.
    + intros (st & Hst & Hx). apply list_elem_of_In in Hst.
      destruct st as [iface| | | |]; cbn in Hx; try done.
      destruct (id_isExported iface) eqn:Hex; [|done].
      destruct Hx as [<-|[]]. by exists iface.
    + intros (iface & Hst & Hex & ->). exists (InterfaceStatement iface).
      split; [by apply list_elem_of_In|]. cbn. rewrite Hex. by left.
  - intros x. rewrite parseTypeAliases_source_order.
    unfold typeAliasesInSourceOrder. rewrite list_elem_of_In, in_flat_map. split.
    + intros (st & Hst & Hx). apply list_elem_of_In in Hst.
      destruct st as [|alias| | |]; cbn in Hx; try done.
      destruct (ta_isExported alias) eqn:Hex; [|done].
      destruct Hx as [<-|[]]. by exists alias.
    + intros (alias & Hst & Hex & ->). exists (TypeAliasStatement alias).
      split; [by apply list_elem_of_In|]. cbn. rewrite Hex. by left.
  - unfold parseInterfaces. by rewrite length_map.
  - unfold parseTypeAliases. by rewrite length_map.
Qed.

(** X3: A function declaration always gets a non-empty name: its own when it
    has one, and [anonymous] when [getName()] gives nothing or the empty
    string. *)
Theorem declared_function_name (fn : FunctionDeclaration) :
  fn_name (parseFunctionDeclaration fn) <> EmptyString
  /\ (forall name,
        fd_getName fn = Some name -> name <> EmptyString ->
        fn_name (parseFunctionDeclaration fn) = name)
  /\ (fd_getName fn = None \/ fd_getName fn = Some EmptyString ->
      fn_name (parseFunctionDeclaration fn) = "anonymous").
Proof.
  cbn [parseFunctionDeclaration fn_name].
  destruct (fd_getName fn) as [[|c name]|]; cbn [truthy].
  - split; [done|]. split; [by intros name [= <-]|done].
  - split; [done|]. split; [by intros name' [= <-]|]. by intros [|].
  - split; [done|]. split; [done|done].
Qed.

Lemma declared_function_name_witness :
  fn_name (parseFunctionDeclaration exportedFunctionF) = "f".
Proof.
  apply (proj1 (proj2 (declared_function_name exportedFunctionF)) "f");
    [reflexivity|discriminate].
Defined.

(** X4: The [extends] field of a parsed interface is never the empty list: it
    is absent exactly when the declaration has no extends clause, and
    otherwise holds the text of every clause in order.  The section of the
    interface then carries, right under its heading, the line that lists
    the clauses separated by commas. *)
Theorem extends_omitted_when_empty (iface : InterfaceDeclaration) :
  iface_extends (interfaceRecord iface) <> Some []
  /\ (iface_extends (interfaceRecord iface) = None
      <-> id_getExtends iface = [])
  /\ (forall clauses,
        iface_extends (interfaceRecord iface) = Some clauses ->
        clauses = id_getExtends iface)
  /\ (forall sf dup,
        id_getExtends iface <> [] ->
        Generator.generateInterface (interfaceRecord iface) sf dup !! 2
        = Some ("*Extends: " +:+ join ", " (id_getExtends iface) +:+ "*")).
Proof.
  split; [|split; [|split]].
  - cbn [interfaceRecord iface_extends]. unfold getExtendsClause.
    by destruct (id_getExtends iface).
  - cbn [interfaceRecord iface_extends]. unfold getExtendsClause.
    by destruct (id_getExtends iface).
  - cbn [interfaceRecord iface_extends]. unfold getExtendsClause.
    destruct (id_getExtends iface); [done|]. by intros clauses [= <-].
  - intros sf dup Hne. unfold Generator.generateInterface.
    cbn [interfaceRecord iface_extends iface_description iface_properties
         iface_name]. unfold getExtendsClause, Generator.pushDescription.
    destruct (id_getExtends iface) as [|c cs]; [done|].
    destruct (getJsDocDescription (id_getJsDocs iface)) as [d|];
      [destruct (truthy d)|]; destruct (parseProperties iface); reflexivity.
Qed.

Lemma extends_omitted_when_empty_witness :
  Generator.generateInterface
    (interfaceRecord
       {| id_isExported := true; id_getName := "Admin"; id_getJsDocs := [];
          id_getProperties := []; id_getMethods := [];
          id_getExtends := ["User"; "Auditable<T>"] |})
    "a.ts" ∅ !! 2
  = Some ("*Extends: " +:+ join ", " ["User"; "Auditable<T>"] +:+ "*").
Proof.
  apply (proj2 (proj2 (proj2
           (extends_omitted_when_empty
              {| id_isExported := true; id_getName := "Admin";
                 id_getJsDocs := []; id_getProperties := [];
                 id_getMethods := [];
                 id_getExtends := ["User"; "Auditable<T>"] |})))).
  discriminate.
Defined.



End ExtractorProperties.

(** ** Escaping of type text *)

Section EscapeProperties.
Import Generator Notions.
Local Arguments append : simpl nomatch.

Lemma replacePipes_cons (c : ascii) (s : string) :
  replacePipes (String c s)
  = if Ascii.eqb c "|"
    then String "\" (String "|" (replacePipes s))
    else String c (replacePipes s).
Proof. destruct c as [[] [] [] [] [] [] [] []]; reflexivity. Qed.

Lemma unescapePipes_cons (c d : ascii) (s : string) :
  unescapePipes (String c (String d s))
  = if Ascii.eqb c "\" && Ascii.eqb d "|"
    then String "|" (unescapePipes s)
    else String c (unescapePipes (String d s)).
Proof. reflexivity. Qed.

Lemma replacePipes_head (s r : string) : replacePipes s <> String "|" r.
Proof.
  destruct s as [|c s]; [done|]. rewrite replacePipes_cons.
  destruct (Ascii.eqb_spec c "|") as [->|Hc]; [done|]. by intros [= ? _].
Qed.

(** X6: [escapeMarkdown] puts a backslash before every pipe and changes nothing
    else: in its result every pipe stands right after a backslash, the
    text grows by one character per pipe, a text without pipe is returned
    as it is, escaping goes character by character (it distributes over
    concatenation), and the original text is recovered by reading each
    backslash-pipe pair as a pipe. *)
Theorem pipes_escaped (text : string) :
  (forall prev, pipesEscapedFrom prev (escapeMarkdown text) = true)
  /\ unescapePipes (escapeMarkdown text) = text
  /\ String.length (escapeMarkdown text)
     = String.length text + countPipes text
  /\ (countPipes text = 0 -> escapeMarkdown text = text)
  /\ (forall rest,
        escapeMarkdown (text +:+ rest)
        = escapeMarkdown text +:+ escapeMarkdown rest).
Proof.
  unfold escapeMarkdown. split; [|split; [|split; [|split]]].
  - induction text as [|c text IH]; intros prev; [done|].
    rewrite replacePipes_cons.
    destruct (Ascii.eqb_spec c "|") as [->|Hc].
    + cbn. apply IH.
    + cbn. apply Ascii.eqb_neq in Hc. rewrite Hc. cbn. apply IH.
  - induction text as [|c text IH]; [done|].
    rewrite replacePipes_cons.
    destruct (Ascii.eqb_spec c "|") as [->|Hc].
    + cbn. by rewrite IH.
    + pose proof (replacePipes_head text) as Hhead.
      destruct (replacePipes text) as [|d r] eqn:E.
      * destruct text as [|c' text]; [done|].
        rewrite replacePipes_cons in E. by destruct (Ascii.eqb c' "|").
      * rewrite unescapePipes_cons.
        destruct (Ascii.eqb_spec d "|") as [->|Hd]; [by destruct (Hhead r)|].
        rewrite andb_false_r. by rewrite IH.
  - induction text as [|c text IH]; [done|].
    rewrite replacePipes_cons. cbn [countPipes String.length].
    destruct (Ascii.eqb c "|"); cbn [String.length]; rewrite IH; lia.
  - induction text as [|c text IH]; [done|].
    rewrite replacePipes_cons. cbn [countPipes].
    destruct (Ascii.eqb c "|"); [done|]. cbn. intros H. by rewrite IH.
  - intros rest. induction text as [|c text IH]; [done|].
    cbn [append]. rewrite !replacePipes_cons, IH.
    by destruct (Ascii.eqb c "|").
Qed.

Lemma pipes_escaped_witness : escapeMarkdown "Promise<void>" = "Promise<void>".
Proof.
  apply (proj1 (proj2 (proj2 (proj2 (pipes_escaped "Promise<void>"))))).
  reflexivity.
Defined.

End EscapeProperties.

(** ** The shape of anchors *)

Section AnchorProperties.
Import Generator Notions.
Local Arguments append : simpl nomatch.

Lemma toLowerCaseChar_anchor (c : ascii) :
  isAnchorChar c = true -> toLowerCaseChar c = c.
Proof. destruct c as [[] [] [] [] [] [] [] []]; cbv; done. Qed.

Lemma toLowerCaseChar_idemp (c : ascii) :
  toLowerCaseChar (toLowerCaseChar c) = toLowerCaseChar c.
Proof. destruct c as [[] [] [] [] [] [] [] []]; reflexivity. Qed.

Lemma toLowerCase_idemp (s : string) :
  toLowerCase (toLowerCase s) = toLowerCase s.
Proof.
  induction s as [|c s IH]; [done|]. cbn. by rewrite toLowerCaseChar_idemp, IH.
Qed.

Lemma isLowerAlnum_anchor (c : ascii) :
  isLowerAlnum c = true -> isAnchorChar c = true.
Proof. unfold isAnchorChar. by intros ->. Qed.

Lemma isLowerAlnum_not_hyphen (c : ascii) :
  isLowerAlnum c = true -> Ascii.eqb c "-" = false.
Proof. destruct (Ascii.eqb_spec c "-") as [->|]; [done|done]. Qed.

(** What the scan writes: only anchor characters, and never a hyphen after
    a hyphen; inside a run the output does not start with a hyphen. *)
Lemma scan_shape (s : string) :
  (allAnchorChars (replaceNonAlnumRuns s) = true
   /\ noDoubleHyphenFrom false (replaceNonAlnumRuns s) = true)
  /\ (allAnchorChars (skipRun s) = true
      /\ noDoubleHyphenFrom true (skipRun s) = true).
Proof.
  induction s as [|c s [[IHa IHn] [IHka IHkn]]]; [done|].
  cbn [replaceNonAlnumRuns skipRun].
  destruct (isLowerAlnum c) eqn:Hc.
  - pose proof (isLowerAlnum_anchor c Hc) as Ha.
    pose proof (isLowerAlnum_not_hyphen c Hc) as Hh.
    cbn [allAnchorChars noDoubleHyphenFrom]. rewrite Ha, Hh, IHa, IHn.
    by rewrite andb_false_r.
  - cbn [allAnchorChars noDoubleHyphenFrom]. by rewrite IHka, IHkn.
Qed.

(** The scan leaves its own output as it is. *)
Lemma scan_fixpoint (s : string) :
  replaceNonAlnumRuns (replaceNonAlnumRuns s) = replaceNonAlnumRuns s
  /\ replaceNonAlnumRuns (skipRun s) = skipRun s
  /\ skipRun (skipRun s) = skipRun s.
Proof.
  induction s as [|c s (IHr & IHrk & IHk)]; [done|].
  cbn [replaceNonAlnumRuns skipRun].
  destruct (isLowerAlnum c) eqn:Hc; cbn [replaceNonAlnumRuns skipRun].
  - by rewrite Hc, IHr.
  - by rewrite IHk, IHrk.
Qed.

Lemma toLowerCase_anchor (s : string) :
  allAnchorChars s = true -> toLowerCase s = s.
Proof.
  induction s as [|c s IH]; [done|]. cbn. intros [Hc Hs]%andb_true_iff.
  by rewrite (toLowerCaseChar_anchor c Hc), IH.
Qed.

(** X7: An anchor is made of lower-case letters, digits and hyphens only and
    never holds two hyphens in a row; normalising is idempotent and does
    not see the case of letters; so every anchor the collision resolver
    returns has this shape. *)
Theorem anchor_shape (s : string) :
  allAnchorChars (toAnchor s) = true
  /\ noDoubleHyphenFrom false (toAnchor s) = true
  /\ toAnchor (toAnchor s) = toAnchor s
  /\ toAnchor (toLowerCase s) = toAnchor s
  /\ (forall sourceFile duplicates,
        allAnchorChars (getAnchor s sourceFile duplicates) = true
        /\ noDoubleHyphenFrom false (getAnchor s sourceFile duplicates) = true).
Proof.
  assert (forall x, allAnchorChars (toAnchor x) = true
                    /\ noDoubleHyphenFrom false (toAnchor x) = true) as Hshape.
  { intros x. apply scan_shape. }
  destruct (Hshape s) as [Ha Hn].
  split; [done|]. split; [done|]. split; [|split].
  - unfold toAnchor in *. rewrite (toLowerCase_anchor _ Ha).
    apply scan_fixpoint.
  - unfold toAnchor. by rewrite toLowerCase_idemp.
  - intros sourceFile duplicates. unfold getAnchor.
    destruct (bool_decide (s ∈ duplicates)); apply Hshape.
Qed.

End AnchorProperties.

(** ** Duplicate detection *)

Section DuplicateProperties.
Import Generator Pooled Notions.

Lemma occurrences_app (name : string) (l1 l2 : list string) :
  occurrences name (l1 ++ l2) = occurrences name l1 + occurrences name l2.
Proof. unfold occurrences. by rewrite filter_app, length_app. Qed.

Lemma occurrences_Permutation (name : string) (l1 l2 : list string) :
  l1 ≡ₚ l2 -> occurrences name l1 = occurrences name l2.
Proof.
  intros Hperm. induction Hperm as [|x l1 l2 _ IH|x y l|l1 l2 l3 _ IH1 _ IH2].
  - done.
  - rewrite !occurrences_cons. by rewrite IH.
  - rewrite !occurrences_cons.
    by destruct (decide (y = name)), (decide (x = name)).
  - by rewrite IH1.
Qed.

Lemma NoDup_occurrences (l : list string) :
  NoDup l <-> forall name, occurrences name l <= 1.
Proof.
  induction l as [|x l IH].
  - split; [intros _ name; unfold occurrences; cbn; lia|constructor].
  - rewrite NoDup_cons, IH. split.
    + intros [Hx Hl] name. rewrite occurrences_cons.
      destruct (decide (x = name)) as [->|]; [|apply Hl].
      rewrite occurrences_pos in Hx. lia.
    + intros Hall. split.
      * intros Hx%occurrences_pos. specialize (Hall x).
        rewrite occurrences_cons, decide_True in Hall by done. lia.
      * intros name. specialize (Hall name). rewrite occurrences_cons in Hall.
        destruct (decide (x = name)); lia.
Qed.

(** X8: [findDuplicateNames] returns exactly the names that occur at least
    twice.  The set holds only names of the list, is empty exactly when no
    name is repeated, and does not depend on the order of the names. *)
Theorem duplicates_are_repeated_names (names : list string) :
  (forall name,
      name ∈ findDuplicateNames names <-> 2 <= occurrences name names)
  /\ (forall name, name ∈ findDuplicateNames names -> name ∈ names)
  /\ (findDuplicateNames names = ∅ <-> NoDup names)
  /\ (forall names',
        names ≡ₚ names' -> findDuplicateNames names = findDuplicateNames names').
Proof.
  split; [apply elem_of_findDuplicateNames|]. split; [|split].
  - intros name Hdup%elem_of_findDuplicateNames.
    apply occurrences_pos. lia.
  - rewrite NoDup_occurrences. split.
    + intros Hempty name.
      destruct (le_lt_dec (occurrences name names) 1) as [|Hlt]; [done|].
      assert (name ∈ findDuplicateNames names) as Hin
          by (apply elem_of_findDuplicateNames; lia).
      rewrite Hempty in Hin. by apply not_elem_of_empty in Hin.
    + intros Hall. apply set_eq. intros name.
      rewrite elem_of_findDuplicateNames. specialize (Hall name).
      split; [lia|by intros ?%not_elem_of_empty].
  - intros names' Hperm. apply set_eq. intros name.
    by rewrite !elem_of_findDuplicateNames,
      (occurrences_Permutation name _ _ Hperm).
Qed.

Lemma duplicates_are_repeated_names_witness :
  findDuplicateNames ["Config"; "Id"; "Config"]
  = findDuplicateNames ["Id"; "Config"; "Config"].
Proof.
  apply (proj2 (proj2 (proj2 (duplicates_are_repeated_names
                                ["Config"; "Id"; "Config"])))).
  apply perm_swap.
Defined.

Lemma occurrences_itemsOf {T : Type} (proj : ParsedFile -> list T)
      (f : T -> string) (host : Platform) (files : list ParsedFile)
      (name : string) :
  occurrences name (map (fun i => f (item i)) (itemsOf proj host files))
  = sum_list (map (fun file => occurrences name (map f (proj file))) files).
Proof.
  unfold itemsOf. induction files as [|file files IH]; [done|].
  cbn [flat_map map sum_list sum_list_with].
  rewrite map_app, occurrences_app, IH, map_map. done.
Qed.

Lemma sum_list_map_add3 {A : Type} (a b c : A -> nat) (l : list A) :
  sum_list (map (fun x => a x + b x + c x) l)
  = sum_list (map a l) + sum_list (map b l) + sum_list (map c l).
Proof. induction l as [|x l IH]; simpl in *; lia. Qed.

Lemma occurrences_names (host : Platform) (files : list ParsedFile)
      (name : string) :
  occurrences name (names host files) = totalNamed name files.
Proof.
  unfold names, pooledNames, totalNamed, itemsNamed.
  rewrite !occurrences_app, !occurrences_itemsOf.
  rewrite sum_list_map_add3. lia.
Qed.

Lemma totalNamed_Permutation (name : string) (files files' : list ParsedFile) :
  files ≡ₚ files' -> totalNamed name files = totalNamed name files'.
Proof.
  unfold totalNamed.
  intros Hperm. induction Hperm as [|x l1 l2 _ IH|x y l|l1 l2 l3 _ IH1 _ IH2];
    simpl in *; lia.
Qed.

(** X9: Collisions are detected over all kinds and all files together: a name
    is in the duplicate set of a rendering exactly when at least two items
    bear it, be they interfaces, type aliases or functions, of one file or
    of several.  The set depends neither on the order of the files nor on
    the host. *)
Theorem duplicates_pooled (host : Platform) (files : list ParsedFile) :
  (forall name,
      name ∈ duplicateNames host files <-> 2 <= totalNamed name files)
  /\ (forall host' files',
        files ≡ₚ files' ->
        duplicateNames host files = duplicateNames host' files').
Proof.
  assert (forall h fs name,
             name ∈ duplicateNames h fs <-> 2 <= totalNamed name fs) as Hiff.
  { intros h fs name. unfold duplicateNames.
    by rewrite elem_of_findDuplicateNames, occurrences_names. }
  split; [apply Hiff|].
  intros host' files' Hperm. apply set_eq. intros name.
  by rewrite !Hiff, (totalNamed_Permutation name _ _ Hperm).
Qed.

Lemma duplicates_pooled_witness :
  duplicateNames Posix Samples.twoConfigFiles
  = duplicateNames Win32 (rev Samples.twoConfigFiles).
Proof.
  apply (proj2 (duplicates_pooled Posix Samples.twoConfigFiles)).
  apply perm_swap.
Defined.

End DuplicateProperties.

(** ** Descriptions *)

Section DescriptionProperties.
Import Parser Generator CommentSpec Notions.
Local Arguments append : simpl nomatch.

Lemma pushDescription_truthy (lines : list string) (d : string) :
  d <> EmptyString ->
  pushDescription lines (Some d) = lines ++ [d; EmptyString].
Proof. by destruct d. Qed.

Lemma resolved_description_not_empty (docs : option (list JSDoc)) (d : string) :
  getJsDocDescriptionFromDocs docs = Some d ->
  d <> EmptyString
  /\ startsWithWhiteSpace d = false /\ endsWithWhiteSpace d = false.
Proof.
  unfold getJsDocDescriptionFromDocs.
  destruct docs as [docs|]; [|done].
  destruct (last docs) as [jsDoc|]; [|done].
  destruct (doc_getDescription jsDoc) as [summary|]; [|done].
  destruct (negb (truthy summary)
            || String.eqb (trim summary) EmptyString) eqn:Htest; [done|].
  intros [= <-]. apply orb_false_iff in Htest as [_ Hne].
  apply String.eqb_neq in Hne. split; [done|].
  by destruct (trim_spec summary) as (_ & ? & ?).
Qed.

(** X10: A description that the comment resolver returns is never empty and
    never starts or ends with white space, the no-break space included;
    and the generator prints every such description in the section of its
    item, interface, type alias or function. *)
Theorem resolved_description_printed (docs : list JSDoc) (d : string) :
  getJsDocDescription docs = Some d ->
  (d <> EmptyString
   /\ startsWithWhiteSpace d = false /\ endsWithWhiteSpace d = false)
  /\ (forall c rest,
         nat_of_ascii c ∈ [9; 10; 11; 12; 13; 32; 160] ->
         d <> String c rest /\ d <> rest +:+ String c EmptyString)
  /\ (forall iface sf dup,
        id_getJsDocs iface = docs ->
        d ∈ generateInterface (interfaceRecord iface) sf dup)
  /\ (forall alias sf dup,
        ta_getJsDocs alias = docs ->
        d ∈ generateTypeAlias (typeAliasRecord alias) sf dup)
  /\ (forall fn sf dup,
        fd_getJsDocs fn = docs ->
        d ∈ generateFunction (parseFunctionDeclaration fn) sf dup)
  /\ (forall vs vd arrowFn sf dup,
        vs_getJsDocs vs = docs ->
        d ∈ generateFunction (parseArrowFunction vs vd arrowFn) sf dup).
Proof.
  intros Hd. unfold getJsDocDescription in Hd.
  destruct (resolved_description_not_empty _ _ Hd) as (Hne & Hs & He).
  split; [done|]. split; [|split; [|split; [|split]]].
  - intros c rest Hc.
    assert (isSpace c = true) as Hspace by (by apply bool_decide_eq_true_2).
    split; intros ->.
    + cbn in Hs. congruence.
    + unfold endsWithWhiteSpace in He.
      rewrite rev_append in He. cbn in He. congruence.
  - intros iface sf dup <-. unfold generateInterface.
    cbn [interfaceRecord iface_description iface_name iface_extends
         iface_properties]. unfold getJsDocDescription. rewrite Hd.
    rewrite pushDescription_truthy by done.
    destruct (getExtendsClause iface) as [[|e es]|];
      destruct (parseProperties iface); set_solver.
  - intros alias sf dup <-. unfold generateTypeAlias.
    cbn [typeAliasRecord alias_description alias_name alias_type].
    unfold getJsDocDescription. rewrite Hd.
    rewrite pushDescription_truthy by done. set_solver.
  - intros fn sf dup <-. unfold generateFunction.
    cbn [parseFunctionDeclaration fn_description fn_name fn_parameters
         fn_returnType fn_isAsync]. unfold getJsDocDescription. rewrite Hd.
    rewrite pushDescription_truthy by done.
    destruct (parseParameters _ _); set_solver.
  - intros vs vd arrowFn sf dup <-. unfold generateFunction.
    cbn [parseArrowFunction fn_description fn_name fn_parameters
         fn_returnType fn_isAsync]. rewrite Hd.
    rewrite pushDescription_truthy by done.
    destruct (parseParameters _ _); set_solver.
Qed.

Lemma resolved_description_printed_witness :
  "Counts things."
    ∈ generateTypeAlias
        (typeAliasRecord
           {| ta_isExported := true; ta_getName := "Count";
              ta_typeText := "number";
              ta_getJsDocs :=
                [Samples.bannerBlock;
                 {| doc_getDescription :=
                      Some (String "160" "Counts things.  ");
                    doc_getTags := [] |}] |})
        "a.ts" ∅.
Proof.
  destruct (resolved_description_printed
              [Samples.bannerBlock;
               {| doc_getDescription := Some (String "160" "Counts things.  ");
                  doc_getTags := [] |}]
              "Counts things.")
    as (_ & _ & _ & Halias & _); [reflexivity|].
  apply (Halias {| ta_isExported := true; ta_getName := "Count";
                   ta_typeText := "number";
                   ta_getJsDocs :=
                     [Samples.bannerBlock;
                      {| doc_getDescription :=
                           Some (String "160" "Counts things.  ");
                         doc_getTags := [] |}] |}).
  reflexivity.
Defined.

Lemma startsWithWhiteSpace_app (x y : string) :
  allWhiteSpace x = true -> x <> EmptyString ->
  startsWithWhiteSpace (x +:+ y) = true.
Proof. destruct x as [|c x]; [done|]. cbn. by intros [? _]%andb_true_iff. Qed.

Lemma replaced_empty_iff (text : string) :
  replaceLeadingDash (trim text) = EmptyString
  <-> trim text = "-" \/ trim text = EmptyString.
Proof.
  destruct (trim_spec text) as (_ & _ & Hend).
  destruct (trim text) as [|c r]; [split; [by right|done]|].
  rewrite replaceLeadingDash_cons.
  destruct (Ascii.eqb_spec c "-") as [->|Hc].
  - split; [|by intros [[= ->]|]]. intros Hr%trimStart_empty.
    destruct r as [|c' r']; [by left|]. exfalso.
    unfold endsWithWhiteSpace in Hend. rewrite rev_cons in Hend.
    rewrite startsWithWhiteSpace_app in Hend; [done| |].
    + by rewrite allWhiteSpace_rev.
    + intros Hrev. apply (f_equal String.rev) in Hrev.
      by rewrite rev_involutive in Hrev.
  - split; [done|]. by intros [[= ? _]|].
Qed.

(** X11: A recorded tag is stored with the empty description exactly when
    its comment text, trimmed of the white space around it, is a lone
    dash: then the mapping has an entry for the parameter, and the entry
    is the empty string. *)
Theorem lone_dash_description (tag : JSDocTag) (text : string) :
  recorded tag text ->
  let descriptions :=
    extractParamDescriptions
      [{| doc_getDescription := None; doc_getTags := [tag] |}] in
  (storedFor text EmptyString <-> trimmedOf text "-")
  /\ (exists d, descriptions !! tag_getName tag = Some d
                /\ storedFor text d
                /\ (d = EmptyString <-> trimmedOf text "-"))
  /\ (trimmedOf text "-" ->
      descriptions !! tag_getName tag = Some EmptyString).
Proof.
  intros Hrec descriptions. subst descriptions.
  assert (replaceLeadingDash (trim text) = EmptyString <-> trimmedOf text "-")
    as Hiff.
  { rewrite replaced_empty_iff. split.
    - intros [Hdash|Hblank].
      + rewrite <- Hdash. apply trim_spec.
      + apply trim_blank in Hblank.
        destruct Hrec as (_ & _ & _ & _ & _ & Hne). congruence.
    - intros Hdash%trimmedOf_unique. by left. }
  assert (extractParamDescriptions
            [{| doc_getDescription := None; doc_getTags := [tag] |}]
            !! tag_getName tag
          = Some (replaceLeadingDash (trim text))) as Hstored.
  { unfold extractParamDescriptions. cbn [last doc_getTags foldl].
    rewrite recordParamTag_entryOf.
    assert (entryOf tag
            = Some (tag_getName tag, replaceLeadingDash (trim text))) as ->.
    { apply entryOf_recorded. by exists text. }
    by rewrite lookup_insert_eq. }
  split; [|split].
  - by rewrite storedFor_unique, <- Hiff.
  - exists (replaceLeadingDash (trim text)).
    split; [done|]. split; [apply storedFor_code|done].
  - intros Hdash. rewrite Hstored. f_equal. by apply Hiff.
Qed.

Lemma lone_dash_description_witness :
  extractParamDescriptions
    [{| doc_getDescription := None;
        doc_getTags :=
          [{| tag_getTagName := "param"; tag_isJSDocParameterTag := true;
              tag_getName := "x";
              tag_getCommentText := Some (String "160" "- ") |}] |}]
    !! "x" = Some EmptyString.
Proof.
  destruct (lone_dash_description
              {| tag_getTagName := "param"; tag_isJSDocParameterTag := true;
                 tag_getName := "x";
                 tag_getCommentText := Some (String "160" "- ") |}
              (String "160" "- ")) as (_ & _ & Hstored).
  - repeat split; vm_compute; discriminate.
  - apply Hstored. split; [|split; reflexivity].
    exists (String "160" EmptyString), " ". by repeat split.
Defined.

End DescriptionProperties.

(** ** The frame of the document *)

Section DocumentProperties.
Import Generator Pooled Notions.
Local Arguments append : simpl nomatch.

Lemma itemsOf_nil {T : Type} (proj : ParsedFile -> list T) (host : Platform)
      (files : list ParsedFile) :
  (forall file, file ∈ files -> proj file = []) ->
  itemsOf proj host files = [].
Proof.
  unfold itemsOf. induction files as [|file files IH]; intros Hall; [done|].
  cbn [flat_map]. rewrite (Hall file) by set_solver.
  apply IH. intros f Hf. apply Hall. set_solver.
Qed.

Lemma itemsOf_app {T : Type} (proj : ParsedFile -> list T) (host : Platform)
      (files1 files2 : list ParsedFile) :
  itemsOf proj host (files1 ++ files2)
  = itemsOf proj host files1 ++ itemsOf proj host files2.
Proof. unfold itemsOf. apply flat_map_app. Qed.

Lemma last_sections {T : Type} (g : T -> list string) (l : list T) :
  last (flat_map (fun x => g x ++ [EmptyString]) l)
  = match l with [] => None | _ :: _ => Some EmptyString end.
Proof.
  induction l as [|x l IH]; [done|]. cbn [flat_map].
  rewrite last_app, IH. destruct l; [|done]. by rewrite last_snoc.
Qed.

Lemma join_snoc_blank (sep : string) (pre : list string) :
  pre <> [] ->
  join sep (pre ++ [EmptyString]) = join sep pre +:+ sep.
Proof.
  induction pre as [|p pre IH]; [done|]. intros _.
  destruct pre as [|q pre].
  - change (join sep ([p] ++ [EmptyString])) with (p +:+ sep +:+ EmptyString).
    change (join sep [p]) with p. by rewrite append_nil_r.
  - change (join sep ((p :: q :: pre) ++ [EmptyString]))
      with (p +:+ sep +:+ join sep ((q :: pre) ++ [EmptyString])).
    rewrite IH by done.
    change (join sep (p :: q :: pre)) with (p +:+ sep +:+ join sep (q :: pre)).
    by rewrite !append_assoc.
Qed.

(** X12: Every document starts with the level-1 heading of the title,
    [API Reference] when none is given, followed by a blank line, and ends
    with a newline.  When no file holds an item the document is the title
    block alone, without table of contents; as soon as one file holds an
    item, the table of contents follows the title block. *)
Theorem document_frame (host : Platform) (files : list ParsedFile)
        (options : GeneratorOptions) :
  (exists rest,
      generateMarkdownLines host files options
      = ["# " +:+ default "API Reference" (title options); EmptyString] ++ rest)
  /\ last (generateMarkdownLines host files options) = Some EmptyString
  /\ (exists body,
        generateMarkdown host files options = body +:+ newline)
  /\ ((forall file, file ∈ files -> hasNoItem file) ->
      generateMarkdown host files options
      = "# " +:+ default "API Reference" (title options) +:+ newline)
  /\ (forall file,
        file ∈ files -> ~ hasNoItem file ->
        exists rest,
          generateMarkdownLines host files options
          = ["# " +:+ default "API Reference" (title options); EmptyString;
             "## Table of Contents"; EmptyString] ++ rest).
Proof.
  assert (exists rest,
             generateMarkdownLines host files options
             = ["# " +:+ default "API Reference" (title options); EmptyString]
                 ++ rest) as Hstart.
  { rewrite generateMarkdownLines_eq, tableOfContents_eq.
    destruct (itemsOf interfaces host files),
      (itemsOf typeAliases host files), (itemsOf functions host files);
      rewrite <- ?app_assoc; eexists; reflexivity. }
  assert (last (generateMarkdownLines host files options) = Some EmptyString)
    as Hlast.
  { rewrite generateMarkdownLines_eq, !last_app, !last_sections.
    rewrite tableOfContents_eq.
    destruct (itemsOf interfaces host files),
      (itemsOf typeAliases host files), (itemsOf functions host files);
      try done; by rewrite ?app_assoc, last_snoc. }
  split; [exact Hstart|]. split; [exact Hlast|]. split; [|split].
  - unfold generateMarkdown. apply last_Some in Hlast as [pre Hpre].
    rewrite Hpre. exists (join newline pre). apply join_snoc_blank.
    destruct Hstart as [rest Hrest]. rewrite Hpre in Hrest.
    intros ->. by destruct rest.
  - intros Hall. unfold generateMarkdown.
    rewrite generateMarkdownLines_eq, tableOfContents_eq.
    rewrite !itemsOf_nil by (intros f Hf; by destruct (Hall f Hf) as (?&?&?)).
    cbn [flat_map app].
    match goal with
    | |- join newline [?a; EmptyString] = _ =>
        change (join newline [a; EmptyString])
          with (a +:+ newline +:+ EmptyString)
    end.
    by rewrite (append_nil_r newline), append_assoc.
  - intros file Hfile Hitems.
    rewrite generateMarkdownLines_eq, tableOfContents_eq.
    assert (itemsOf interfaces host files <> []
            \/ itemsOf typeAliases host files <> []
            \/ itemsOf functions host files <> []) as Hsome.
    { unfold hasNoItem in Hitems.
      destruct (interfaces file) as [|i ?] eqn:Ei;
        [destruct (typeAliases file) as [|t ?] eqn:Et;
         [destruct (functions file) as [|f ?] eqn:Ef; [by destruct Hitems|]|]|].
      - right; right. intros Hnil.
        pose proof (elem_of_itemsOf functions host files file f Hfile) as Hin.
        rewrite Ef, Hnil in Hin. by apply elem_of_nil in Hin; [|set_solver].
      - right; left. intros Hnil.
        pose proof (elem_of_itemsOf typeAliases host files file t Hfile) as Hin.
        rewrite Et, Hnil in Hin. by apply elem_of_nil in Hin; [|set_solver].
      - left. intros Hnil.
        pose proof (elem_of_itemsOf interfaces host files file i Hfile) as Hin.
        rewrite Ei, Hnil in Hin. by apply elem_of_nil in Hin; [|set_solver]. }
    destruct (itemsOf interfaces host files),
      (itemsOf typeAliases host files), (itemsOf functions host files);
      [by destruct Hsome as [|[|]]|..];
      rewrite <- ?app_assoc; eexists; reflexivity.
Qed.

Lemma document_frame_witness :
  generateMarkdown Posix
    [{| filePath := "empty.ts"; interfaces := []; typeAliases := [];
        functions := [] |}]
    {| title := None |}
  = "# " +:+ "API Reference" +:+ newline.
Proof.
  apply (proj1 (proj2 (proj2 (proj2
           (document_frame
              Posix
              [{| filePath := "empty.ts"; interfaces := []; typeAliases := [];
                  functions := [] |}]
              {| title := None |}))))).
  intros file Hfile. apply list_elem_of_In in Hfile.
  destruct Hfile as [<-|[]]. repeat split.
Defined.

(** X13: A parsed file without any item is invisible to the renderer: wherever
    it stands in the list and whatever its path, the document is the same
    with it and without it. *)
Theorem file_without_item_not_rendered (host : Platform)
        (before after : list ParsedFile) (file : ParsedFile)
        (options : GeneratorOptions) :
  hasNoItem file ->
  generateMarkdown host (before ++ file :: after) options
  = generateMarkdown host (before ++ after) options.
Proof.
  intros (Hi & Ht & Hf).
  assert (forall (T : Type) (proj : ParsedFile -> list T),
             proj file = [] ->
             itemsOf proj host (before ++ file :: after)
             = itemsOf proj host (before ++ after)) as Hitems.
  { intros T proj Hnil. rewrite !itemsOf_app. f_equal.
    unfold itemsOf. cbn [flat_map]. by rewrite Hnil. }
  unfold generateMarkdown. f_equal. rewrite !generateMarkdownLines_eq.
  unfold duplicateNames, names.
  by rewrite !(Hitems _ interfaces Hi), !(Hitems _ typeAliases Ht),
    !(Hitems _ functions Hf).
Qed.

Lemma file_without_item_not_rendered_witness :
  generateMarkdown Posix
    ([Parser.parseSourceFile "a.ts" Samples.exportedConfig]
     ++ {| filePath := "b.ts"; interfaces := []; typeAliases := [];
           functions := [] |}
     :: [Parser.parseSourceFile "b.ts" Samples.exportedConfig])
    {| title := None |}
  = generateMarkdown Posix
      ([Parser.parseSourceFile "a.ts" Samples.exportedConfig]
       ++ [Parser.parseSourceFile "b.ts" Samples.exportedConfig])
      {| title := None |}.
Proof. apply file_without_item_not_rendered. repeat split. Defined.

End DocumentProperties.

(** ** Table rows *)

Section TableProperties.
Import Generator Notions.
Local Arguments append : simpl nomatch.

Lemma unescapedPipesFrom_app (prev : bool) (a b : string) :
  unescapedPipesFrom prev (a +:+ b)
  = unescapedPipesFrom prev a
    + unescapedPipesFrom (endsWithBackslashFrom prev a) b.
Proof.
  revert prev. induction a as [|c a IH]; intros prev; [done|].
  cbn. rewrite IH. lia.
Qed.

Lemma unescapedPipesFrom_no_pipe (prev : bool) (s : string) :
  countPipes s = 0 -> unescapedPipesFrom prev s = 0.
Proof.
  revert prev. induction s as [|c s IH]; intros prev; [done|]. cbn.
  destruct (Ascii.eqb c "|"); [done|]. cbn. apply IH.
Qed.

Lemma unescapedPipesFrom_escaped (prev : bool) (s : string) :
  unescapedPipesFrom prev (escapeMarkdown s) = 0.
Proof.
  unfold escapeMarkdown. revert prev.
  induction s as [|c s IH]; intros prev; [done|].
  rewrite replacePipes_cons. destruct (Ascii.eqb_spec c "|") as [->|Hc].
  - cbn. apply IH.
  - cbn. apply Ascii.eqb_neq in Hc. rewrite Hc. cbn. apply IH.
Qed.

(** X14: The type text never splits a table row: when the name and the
    description hold no pipe, a row has exactly five cell borders (four
    cells), whatever pipes the type text holds. *)
Theorem type_text_keeps_cells (name type : string) (required : bool)
        (description : option string) :
  countPipes name = 0 ->
  countPipes (orEmpty description) = 0 ->
  unescapedPipesFrom false (tableRow name type required description) = 5.
Proof.
  intros Hname Hdesc. unfold tableRow. cbv zeta.
  rewrite !unescapedPipesFrom_app.
  rewrite !(unescapedPipesFrom_no_pipe _ name Hname),
    !(unescapedPipesFrom_no_pipe _ _ Hdesc), !unescapedPipesFrom_escaped.
  destruct required; cbn; lia.
Qed.

Lemma type_text_keeps_cells_witness :
  unescapedPipesFrom false
    (tableRow "mode" "'allowlist' | 'blocklist' | 'none'" false
              (Some "Access control list mode")) = 5.
Proof. apply type_text_keeps_cells; reflexivity. Defined.

End TableProperties.

(** ** The driver's log and the input of the renderer *)

Section DriverProperties.
Import Cli CliSpec Notions.

(** X15: What a run writes to standard error once the search has returned
    its files: the number of files found, then one warning for each file
    that cannot be parsed, in file order, then, unless no file contributed,
    the summary with the number of files kept and the numbers of
    interfaces, types and functions they hold, and last the name of the
    output file, when one is given and the document could be written to
    it; when the write fails the run fails without that line.  A run on no
    file writes nothing. *)
Theorem run_log_lines glob loader write host pattern (files : list string)
        (options : CliOptions) :
  glob pattern (exclude options) = Return files ->
  let result := run glob loader write host pattern options in
  let kept := omap (contribution loader) files in
  let markdown :=
    Generator.generateMarkdown host kept
                               {| title := Some (cli_title options) |} in
  let found :=
    ["Found " +:+ pretty (length files) +:+ " file(s)"]
      ++ omap (warning loader) files in
  (files <> [] ->
   fst result = found ++ closingLines write markdown options kept)
  /\ (files = [] -> fst result = [])
  /\ (files <> [] -> kept = [] -> fst result = found)
  /\ (forall file,
        target options = Some file
        <-> output options = Some file /\ file <> EmptyString)
  /\ (forall file message,
        kept <> [] -> target options = Some file ->
        write file markdown = Throw message ->
        fst result = found ++ [summaryLine kept]
        /\ snd result = Failed (WriteFailed message))
  /\ (forall file written,
        kept <> [] -> target options = Some file ->
        write file markdown = Return written ->
        fst result
        = found ++ [summaryLine kept; "Wrote documentation to " +:+ file])
  /\ (kept <> [] -> target options = None ->
      fst result = found ++ [summaryLine kept]).
Proof.
  intros Hglob result kept markdown found. subst result.
  assert (forall file,
             target options = Some file
             <-> output options = Some file /\ file <> EmptyString) as Htarget.
  { intros file. unfold target. destruct (output options) as [out|].
    - destruct (truthy out) eqn:Hout.
      + apply truthy_true in Hout. split; [by intros [= <-]|by intros [? _]].
      + split; [done|]. intros [[= ->] Hne%truthy_true]. congruence.
    - split; [done|by intros [? _]]. }
  destruct files as [|file0 files].
  { rewrite (run_no_file _ _ _ _ _ _ Hglob). cbn [fst snd].
    repeat split; try done; apply Htarget; done. }
  rewrite (run_eq _ _ _ _ _ _ _ Hglob) by done. cbv zeta.
  fold kept. fold markdown. unfold closingLines.
  change (("Found " +:+ pretty (length (file0 :: files)) +:+ " file(s)")
            :: omap (warning loader) (file0 :: files)) with found.
  split; [|split; [|split; [|split; [exact Htarget|split; [|split]]]]].
  - intros _. destruct kept as [|p ps]; [cbn [fst]; by rewrite app_nil_r|].
    destruct (target options) as [out|];
      [destruct (write out markdown)|]; reflexivity.
  - done.
  - by intros _ ->.
  - intros file message Hkept -> Hwrite.
    destruct kept as [|p ps]; [done|]. by rewrite Hwrite.
  - intros file written Hkept -> Hwrite.
    destruct kept as [|p ps]; [done|]. by rewrite Hwrite.
  - intros Hkept ->. by destruct kept as [|p ps].
Qed.

Lemma run_log_lines_witness :
  fst (run (Samples.matching ["broken.ts"; "empty.ts"; "a.ts"; "b.ts"])
           Samples.sampleProject Samples.writable Posix "*.ts"
           {| output := Some "docs.md"; cli_title := "T"; exclude := [] |})
  = ["Found 4 file(s)";
     "Warning: Failed to parse broken.ts: File not found: broken.ts";
     "Parsed 2 file(s): 2 interfaces, 0 types, 0 functions";
     "Wrote documentation to docs.md"]
  /\ fst (run (Samples.matching ["broken.ts"; "empty.ts"; "a.ts"; "b.ts"])
              Samples.sampleProject Samples.readOnly Posix "*.ts"
              {| output := Some "docs.md"; cli_title := "T"; exclude := [] |})
     = ["Found 4 file(s)";
        "Warning: Failed to parse broken.ts: File not found: broken.ts";
        "Parsed 2 file(s): 2 interfaces, 0 types, 0 functions"].
Proof.
  split.
  - rewrite (proj1 (run_log_lines
                      (Samples.matching
                         ["broken.ts"; "empty.ts"; "a.ts"; "b.ts"])
                      Samples.sampleProject Samples.writable Posix "*.ts"
                      ["broken.ts"; "empty.ts"; "a.ts"; "b.ts"]
                      {| output := Some "docs.md"; cli_title := "T";
                         exclude := [] |} eq_refl))
      by discriminate.
    vm_compute. reflexivity.
  - rewrite (proj1 (run_log_lines
                      (Samples.matching
                         ["broken.ts"; "empty.ts"; "a.ts"; "b.ts"])
                      Samples.sampleProject Samples.readOnly Posix "*.ts"
                      ["broken.ts"; "empty.ts"; "a.ts"; "b.ts"]
                      {| output := Some "docs.md"; cli_title := "T";
                         exclude := [] |} eq_refl))
      by discriminate.
    vm_compute. reflexivity.
Defined.

Lemma holdsItem_cases (p : ParsedFile) :
  ~ holdsNothing p
  <-> interfaces p <> [] \/ typeAliases p <> [] \/ functions p <> [].
Proof.
  unfold holdsNothing.
  destruct (interfaces p), (typeAliases p), (functions p); naive_solver.
Qed.

(** X16: The list handed to the renderer keeps the order of the matched files:
    its paths are a subsequence of the matched paths; each of its elements
    is the extraction of a matched file that was read and holds an
    interface, a type alias or a function; and the extraction of every
    such file is in the list. *)
Theorem renderer_input_in_file_order loader (files : list string) :
  let handed := parsedFiles (parseAll loader (initialState files) files) in
  map filePath handed `sublist_of` files
  /\ (forall p,
        p ∈ handed ->
        filePath p ∈ files
        /\ (interfaces p <> [] \/ typeAliases p <> [] \/ functions p <> [])
        /\ exists sf, loader (filePath p) = Return sf
                      /\ p = Parser.parseSourceFile (filePath p) sf)
  /\ (forall file sf,
        file ∈ files -> loader file = Return sf ->
        interfaces (Parser.parseSourceFile file sf) <> []
        \/ typeAliases (Parser.parseSourceFile file sf) <> []
        \/ functions (Parser.parseSourceFile file sf) <> [] ->
        Parser.parseSourceFile file sf ∈ handed)
  /\ (forall file sf,
        file ∈ files -> loader file = Return sf ->
        hasNoItem (Parser.parseSourceFile file sf) ->
        forall p, p ∈ handed -> filePath p <> file).
Proof.
  intros handed. subst handed.
  destruct (parseAll_eq loader files (initialState files)) as [-> _].
  cbn [initialState parsedFiles app].
  split; [|split; [|split]].
  - induction files as [|file files IH]; [done|].
    rewrite omap_cons_option_list.
    destruct (contribution loader file) as [p|] eqn:Hp.
    + apply contribution_Some in Hp as [Hpath%parseFile_filePath _].
      change (map filePath (option_list (Some p)
                            ++ omap (contribution loader) files))
        with (filePath p :: map filePath (omap (contribution loader) files)).
      rewrite Hpath. by apply sublist_skip.
    + by apply sublist_cons.
  - intros p (file & Hfile & Hp & Hitem)%kept_elem.
    pose proof (parseFile_filePath _ _ _ Hp) as Hpath. subst file.
    split; [done|]. split; [by apply holdsItem_cases|].
    unfold Parser.parseFile in Hp.
    destruct (loader (filePath p)) as [sf|]; [|done].
    injection Hp as Hp. by exists sf.
  - intros file sf Hfile Hsf Hitem. apply kept_elem. exists file.
    split; [done|]. split; [|by apply holdsItem_cases].
    unfold Parser.parseFile. by rewrite Hsf.
  - intros file sf Hfile Hsf Hnone p (file' & _ & Hp & Hitem)%kept_elem Hpath.
    rewrite (parseFile_filePath _ _ _ Hp) in Hpath. subst file'.
    unfold Parser.parseFile in Hp. rewrite Hsf in Hp. injection Hp as <-.
    by apply Hitem.
Qed.

Lemma renderer_input_in_file_order_witness :
  Parser.parseSourceFile "a.ts" Samples.exportedConfig
    ∈ parsedFiles (parseAll Samples.sampleProject
                            (initialState ["broken.ts"; "empty.ts"; "a.ts"])
                            ["broken.ts"; "empty.ts"; "a.ts"]).
Proof.
  destruct (renderer_input_in_file_order
              Samples.sampleProject ["broken.ts"; "empty.ts"; "a.ts"])
    as (_ & _ & Hin & _).
  apply (Hin "a.ts" Samples.exportedConfig).
  - apply list_elem_of_further, list_elem_of_further, list_elem_of_here.
  - reflexivity.
  - left. discriminate.
Defined.

End DriverProperties.

(** ** The members table of an interface *)

Section MembersProperties.
Import Parser Generator.

(** X17: [parseProperties] returns one entry per declared property and per
    method signature, the properties first, in their order, and the method
    signatures after them, in theirs: the entry at the position of a
    property bears its name, type and optionality, and the entry of a
    method signature stands after all properties and bears its name and
    the function type built from its parameters and return type.  The
    section of a parsed interface ends with the marker [*No properties*]
    when the declaration has neither, and otherwise with a table with the
    header lines and one row per entry in that order; in both cases a
    blank line and a rule close the section. *)
Theorem interface_members_table (iface : InterfaceDeclaration)
        (sf : string) (dup : gset string) :
  length (parseProperties iface)
  = length (id_getProperties iface) + length (id_getMethods iface)
  /\ map prop_name (parseProperties iface)
     = map ps_getName (id_getProperties iface)
       ++ map ms_getName (id_getMethods iface)
  /\ (forall i prop,
        id_getProperties iface !! i = Some prop ->
        exists entry,
          parseProperties iface !! i = Some entry
          /\ prop_name entry = ps_getName prop
          /\ prop_type entry = ps_typeText prop
          /\ prop_required entry = negb (ps_hasQuestionToken prop)
          /\ prop_description entry
             = getJsDocDescription (ps_getJsDocs prop))
  /\ (forall j method,
        id_getMethods iface !! j = Some method ->
        exists entry,
          parseProperties iface !! (length (id_getProperties iface) + j)
          = Some entry
          /\ prop_name entry = ms_getName method
          /\ prop_type entry
             = "(" +:+ join ", " (map (fun p => pd_getName p +:+ ": "
                                                  +:+ pd_typeText p)
                                      (ms_getParameters method))
                   +:+ ") => " +:+ ms_returnTypeText method
          /\ prop_required entry = negb (ms_hasQuestionToken method)
          /\ prop_description entry
             = getJsDocDescription (ms_getJsDocs method))
  /\ exists pre,
      (id_getProperties iface = [] -> id_getMethods iface = [] ->
       generateInterface (interfaceRecord iface) sf dup
       = pre ++ ["*No properties*"; EmptyString; "---"])
      /\ (id_getProperties iface <> [] \/ id_getMethods iface <> [] ->
          generateInterface (interfaceRecord iface) sf dup
          = pre ++ ["| Property | Type | Required | Description |";
                    "|----------|------|----------|-------------|"]
                ++ map (fun prop =>
                          tableRow (prop_name prop) (prop_type prop)
                                   (prop_required prop) (prop_description prop))
                       (parseProperties iface)
                ++ [EmptyString; "---"]).
Proof.
  split; [unfold parseProperties; by rewrite length_app, !length_map|].
  split; [unfold parseProperties; by rewrite map_app, !map_map|].
  split; [|split].
  - intros i prop Hprop. unfold parseProperties.
    rewrite lookup_app_l
      by (rewrite length_map; by apply lookup_lt_Some in Hprop).
    match goal with
    | |- context [map ?f ?l !! i] => change (map f l) with (f <$> l)
    end.
    rewrite list_lookup_fmap, Hprop. cbn [fmap option_fmap option_map].
    eexists. split; [reflexivity|]. by repeat split.
  - intros j method Hmethod. unfold parseProperties.
    rewrite lookup_app_r by (rewrite length_map; lia).
    rewrite length_map.
    replace (length (id_getProperties iface) + j
             - length (id_getProperties iface)) with j by lia.
    match goal with
    | |- context [map ?f ?l !! j] => change (map f l) with (f <$> l)
    end.
    rewrite list_lookup_fmap, Hmethod. cbn [fmap option_fmap option_map].
    eexists. split; [reflexivity|]. by repeat split.
  - unfold generateInterface. cbv zeta.
    cbn [interfaceRecord iface_extends iface_description iface_properties
         iface_name].
    match goal with
    | |- context [pushDescription ?l ?d] => exists (pushDescription l d)
    end.
    split.
    + intros Hp Hm. unfold parseProperties. rewrite Hp, Hm. cbn [map app].
      by rewrite <- app_assoc.
    + intros Hsome.
      destruct (parseProperties iface) as [|prop props] eqn:E.
      * apply (f_equal length) in E. unfold parseProperties in E.
        rewrite length_app, !length_map in E.
        destruct Hsome as [Hne|Hne];
          [destruct (id_getProperties iface)|destruct (id_getMethods iface)];
          try done; cbn in E; lia.
      * unfold generatePropertiesTable. rewrite foldl_push_one.
        by rewrite <- !app_assoc.
Qed.

Lemma interface_members_table_witness :
  exists pre,
    generateInterface
      (interfaceRecord
         {| id_isExported := true; id_getName := "Store"; id_getJsDocs := [];
            id_getProperties :=
              [{| ps_getName := "size"; ps_typeText := "number";
                  ps_hasQuestionToken := false; ps_getJsDocs := [] |}];
            id_getMethods :=
              [{| ms_getName := "get";
                  ms_getParameters :=
                    [{| pd_getName := "key"; pd_typeText := "string";
                        pd_isOptional := false;
                        pd_hasInitializer := false |}];
                  ms_returnTypeText := "string | undefined";
                  ms_hasQuestionToken := true; ms_getJsDocs := [] |}];
            id_getExtends := [] |})
      "a.ts" ∅
    = pre ++ ["| Property | Type | Required | Description |";
              "|----------|------|----------|-------------|"]
          ++ [tableRow "size" "number" true None;
              tableRow "get" "(key: string) => string | undefined" false None]
          ++ [EmptyString; "---"].
Proof.
  destruct (interface_members_table
              {| id_isExported := true; id_getName := "Store";
                 id_getJsDocs := [];
                 id_getProperties :=
                   [{| ps_getName := "size"; ps_typeText := "number";
                       ps_hasQuestionToken := false; ps_getJsDocs := [] |}];
                 id_getMethods :=
                   [{| ms_getName := "get";
                       ms_getParameters :=
                         [{| pd_getName := "key"; pd_typeText := "string";
                             pd_isOptional := false;
                             pd_hasInitializer := false |}];
                       ms_returnTypeText := "string | undefined";
                       ms_hasQuestionToken := true; ms_getJsDocs := [] |}];
                 id_getExtends := [] |} "a.ts" ∅)
    as (_ & _ & _ & _ & pre & _ & Hsome).
  exists pre. apply Hsome. left. discriminate.
Defined.

End MembersProperties.
